(** * EIP-1559 gas estimator: statistics helpers and the estimation pipeline

    Shallow embedding of [utils/helperFunctions.js] ([asc], [sum], [mean],
    [quantile]) and of the estimator script ([dataFormatter],
    [gasEstimator]).

    Numbers.  A JavaScript number is modelled as an exact rational ([Qc],
    rationals in lowest terms, so that equality is Leibniz equality)
    extended with the two infinities and NaN.  The rounding of binary64
    arithmetic and the sign of zero are not modelled: every statement below
    is about exact arithmetic.  [undefined] is a separate value; arithmetic
    coerces it to NaN as [ToNumber] does. *)

From Stdlib Require Import ZArith QArith Qcanon Qround List Bool Lia Lra Psatz.
From Stdlib Require Import Permutation Sorted.
Import ListNotations.

Local Open Scope Z_scope.

(** ** JavaScript numbers and values *)

Module JS.

Inductive num : Type :=
| Fin (x : Qc)
| Inf (neg : bool)
| NaN.

Inductive val : Type :=
| Num (n : num)
| Undefined.

Inductive jstype : Type := TNumber | TUndefined.

Definition typeof (v : val) : jstype :=
  match v with Num _ => TNumber | Undefined => TUndefined end.

Definition ofZ (z : Z) : Qc := Q2Qc (inject_Z z).
Definition ofNat (n : nat) : Qc := ofZ (Z.of_nat n).

Definition eqb0 (x : Qc) : bool := Qeq_bool x 0.
Definition ltb0 (x : Qc) : bool := negb (Qle_bool 0 x).
Definition leb (x y : Qc) : bool := Qle_bool x y.

(** [ToNumber]: [undefined] becomes NaN. *)
Definition ToNumber (v : val) : num :=
  match v with Num n => n | Undefined => NaN end.

(** [v !== undefined] *)
Definition defined (v : val) : bool :=
  match v with Num _ => true | Undefined => false end.

Definition add (a b : num) : num :=
  match a, b with
  | NaN, _ | _, NaN => NaN
  | Fin x, Fin y => Fin (x + y)%Qc
  | Inf s, Fin _ | Fin _, Inf s => Inf s
  | Inf s, Inf t => if Bool.eqb s t then Inf s else NaN
  end.

Definition sub (a b : num) : num :=
  match a, b with
  | NaN, _ | _, NaN => NaN
  | Fin x, Fin y => Fin (x - y)%Qc
  | Inf s, Fin _ => Inf s
  | Fin _, Inf s => Inf (negb s)
  | Inf s, Inf t => if Bool.eqb s t then NaN else Inf s
  end.

Definition mul (a b : num) : num :=
  match a, b with
  | NaN, _ | _, NaN => NaN
  | Fin x, Fin y => Fin (x * y)%Qc
  | Inf s, Fin y | Fin y, Inf s =>
      if eqb0 y then NaN else Inf (xorb s (ltb0 y))
  | Inf s, Inf t => Inf (xorb s t)
  end.

(** Division never throws: [0/0] is NaN and [x/0] is an infinity. *)
Definition div (a b : num) : num :=
  match a, b with
  | NaN, _ | _, NaN => NaN
  | Fin x, Fin y =>
      if eqb0 y then (if eqb0 x then NaN else Inf (ltb0 x))
      else Fin (x / y)%Qc
  | Fin _, Inf _ => Fin (ofZ 0)
  | Inf s, Fin y => Inf (xorb s (ltb0 y))
  | Inf _, Inf _ => NaN
  end.

(** [Math.floor] *)
Definition floor (a : num) : num :=
  match a with
  | Fin x => Fin (ofZ (Qfloor x))
  | _ => a
  end.

(** [Math.round]: the nearest integer, a tie going towards +Infinity. *)
Definition round (a : num) : num :=
  match a with
  | Fin x => Fin (ofZ (Qfloor (x + Q2Qc (1 # 2))%Qc))
  | _ => a
  end.

(** [arr[i]] for an array index given as a number: a property that is
    not an index of the array reads as [undefined]. *)
Definition elem (arr : list val) (i : num) : val :=
  match i with
  | Fin x =>
      if (Qden x =? 1)%positive && (0 <=? Qnum x) then
        nth (Z.to_nat (Qnum x)) arr Undefined
      else Undefined
  | _ => Undefined
  end.

(** An array whose elements are all finite numbers. *)
Definition numbers (arr : list Qc) : list val :=
  map (fun x => Num (Fin x)) arr.

End JS.

Import JS.

(** ** utils/helperFunctions.js *)

(** The comparator [(a, b) => a - b]. *)
Definition compareFn (a b : Qc) : Qc := (a - b)%Qc.

(** [Array.prototype.sort] with a comparator.  The language fixes the
    outcome for a consistent comparator (ascending with respect to it, and
    stable) and leaves the algorithm to the engine; a stable insertion sort
    stands for it.  The sort is in place: the array it returns is the
    array it was given. *)
Fixpoint sort_insert (cmp : Qc -> Qc -> Qc) (x : Qc) (l : list Qc) : list Qc :=
  match l with
  | [] => [x]
  | y :: t => if leb (cmp x y) (ofZ 0) then x :: y :: t
              else y :: sort_insert cmp x t
  end.

Fixpoint sort (cmp : Qc -> Qc -> Qc) (l : list Qc) : list Qc :=
  match l with
  | [] => []
  | x :: t => sort_insert cmp x (sort cmp t)
  end.

(** [const asc = (arr) => arr.sort((a, b) => a - b)]: the contents of
    [arr] after the call, which is also the array returned. *)
Definition asc (arr : list Qc) : list Qc := sort compareFn arr.

(** [const sum = (arr) => arr.reduce((a, b) => a + b, 0)] *)
Definition sum (arr : list val) : num :=
  fold_left (fun a b => add a (ToNumber b)) arr (Fin (ofZ 0)).

(** [const mean = (arr) => Math.round(sum(arr) / arr.length)] *)
Definition mean (arr : list val) : num :=
  round (div (sum arr) (Fin (ofNat (length arr)))).

(** [quantile(arr, q)]: the contents of the caller's array after the call,
    and the value returned.  [sorted] and [arr] are one array. *)
Definition quantile (arr : list Qc) (q : Qc) : list Qc * val :=
  let sorted := asc arr in
  let pos := mul (sub (Fin (ofNat (length sorted))) (Fin (ofZ 1))) (Fin q) in
  let base := floor pos in
  let rest := sub pos base in
  if defined (elem (numbers sorted) (add base (Fin (ofZ 1)))) then
    (sorted,
     Num (add (ToNumber (elem (numbers sorted) base))
            (mul rest
               (sub (ToNumber (elem (numbers sorted) (add base (Fin (ofZ 1)))))
                    (ToNumber (elem (numbers sorted) base))))))
  else
    (sorted, elem (numbers sorted) base).

(** ** The estimator script *)

(** Outcome of a computation that may throw (or of a promise that may
    reject). *)
Inductive error : Type :=
| ProviderError   (* a provider call was rejected *)
| NumericFault    (* [BigNumber.toNumber] overflow *)
| OutOfFuel.      (* artefact of the loop's fuel; see [fetchBlocks_fuel] *)

Inductive result (A : Type) : Type :=
| Ok (a : A)
| Err (e : error).
Arguments Ok {A} a.
Arguments Err {A} e.

(** A [BigNumber] of the ethers library is an integer of any size. *)
Definition BigNumber : Type := Z.

(** [BigNumber.prototype.toNumber] (ethers v5): the integer as a number
    when it fits 53 bits, an overflow fault thrown otherwise. *)
Definition toNumber (b : BigNumber) : result Qc :=
  if Z.abs b <? 2 ^ 53 then Ok (ofZ b) else Err NumericFault.

(** What the provider hands out (section 6 of the specification). *)
Module Tx.
Record t : Type := mk {
  type : Z;
  maxPriorityFeePerGas : BigNumber
}.
End Tx.

Module Block.
Record t : Type := mk {
  number : Z;
  baseFeePerGas : BigNumber;
  gasUsed : BigNumber;
  gasLimit : BigNumber;
  transactions : list Tx.t
}.
End Block.

(** The object [dataFormatter] returns. *)
Module Fee.
Record t : Type := mk {
  number : Z;
  baseFeePerGas : Qc;
  maxPriorityFeePerGas : list val;
  gasUsedRatio : num
}.
End Fee.

(** The object [gasEstimator] prints. *)
Record estimate : Type := mkEstimate {
  slow : num;
  average : num;
  fast : num
}.

(** The provider: each call resolves to a value or is rejected
    ([None]). *)
Record provider : Type := mkProvider {
  getBlockNumber : option Z;
  getBlockWithTransactions : Z -> option Block.t;
  getBlock_pending : option Block.t
}.

(** What the script does to the outside world, in order. *)
Inductive event : Type :=
| CallGetBlockNumber
| CallGetBlockWithTransactions (i : Z)
| CallGetBlockPending
| ConsoleLog (e : estimate).

(** Computations that may throw and that leave a trace of events. *)
Definition M (A : Type) : Type := list event -> list event * result A.

Definition ret {A} (a : A) : M A := fun tr => (tr, Ok a).

Definition throw {A} (e : error) : M A := fun tr => (tr, Err e).

Definition bind {A B} (m : M A) (k : A -> M B) : M B :=
  fun tr =>
    match m tr with
    | (tr', Ok a) => k a tr'
    | (tr', Err e) => (tr', Err e)
    end.

Definition emit (ev : event) : M unit := fun tr => (tr ++ [ev], Ok tt).

Definition lift {A} (r : result A) : M A := fun tr => (tr, r).

(** [await] of a provider call. *)
Definition await {A} (ev : event) (answer : option A) : M A :=
  fun tr =>
    match answer with
    | Some a => (tr ++ [ev], Ok a)
    | None => (tr ++ [ev], Err ProviderError)
    end.

Notation "x <- m ;; k" := (bind m (fun x => k))
  (at level 61, m at next level, right associativity).

(** The same for code that only throws. *)
Definition rbind {A B} (r : result A) (k : A -> result B) : result B :=
  match r with Ok a => k a | Err e => Err e end.

Notation "x <-? r ;; k" := (rbind r (fun x => k))
  (at level 61, r at next level, right associativity).

(** [arr.map((tx) => tx.maxPriorityFeePerGas.toNumber())]: the first
    overflow aborts the map. *)
Fixpoint map_toNumber (txs : list Tx.t) : result (list Qc) :=
  match txs with
  | [] => Ok []
  | tx :: rest =>
      x <-? toNumber (Tx.maxPriorityFeePerGas tx) ;;
      xs <-? map_toNumber rest ;;
      Ok (x :: xs)
  end.

(** [function dataFormatter(blocks)].  The three [quantile] calls share
    the one array [maxPriorityFeePerGasArray], which the first call
    sorts. *)
Definition dataFormatter (blocks : Block.t) : result Fee.t :=
  let number := Block.number blocks in
  let baseFeePerGas := Block.baseFeePerGas blocks in
  let gasUsed := Block.gasUsed blocks in
  let gasLimit := Block.gasLimit blocks in
  let transactions := Block.transactions blocks in
  maxPriorityFeePerGasArray <-?
    map_toNumber (filter (fun tx => Tx.type tx =? 2) transactions) ;;
  let (arr1, q30) := quantile maxPriorityFeePerGasArray (Q2Qc (3 # 10)) in
  let (arr2, q60) := quantile arr1 (Q2Qc (6 # 10)) in
  let (arr3, q90) := quantile arr2 (Q2Qc (9 # 10)) in
  base <-? toNumber baseFeePerGas ;;
  used <-? toNumber gasUsed ;;
  limit <-? toNumber gasLimit ;;
  Ok (Fee.mk number base [q30; q60; q90] (div (Fin used) (Fin limit))).

(** The loop
    [for (let i = blockNumber - 4; i < blockNumber; i++) blocks.push(...)],
    entered at [i] with [blocks] as pushed so far.  Each iteration costs
    one unit of fuel. *)
Fixpoint fetchBlocks_fuel (fuel : nat) (p : provider) (i blockNumber : Z)
    (blocks : list Fee.t) : M (list Fee.t) :=
  if i <? blockNumber then
    match fuel with
    | O => throw OutOfFuel
    | S fuel' =>
        raw <- await (CallGetBlockWithTransactions i)
                 (getBlockWithTransactions p i) ;;
        formatted <- lift (dataFormatter raw) ;;
        fetchBlocks_fuel fuel' p (i + 1) blockNumber (blocks ++ [formatted])
    end
  else ret blocks.

(** [async function gasEstimator()] *)
Definition gasEstimator_fuel (fuel : nat) (p : provider) : M unit :=
  blockNumber <- await CallGetBlockNumber (getBlockNumber p) ;;
  blocks <- fetchBlocks_fuel fuel p (blockNumber - 4) blockNumber [] ;;
  let slowMaxPriorityFee :=
    mean (map (fun block => elem (Fee.maxPriorityFeePerGas block) (Fin (ofZ 0)))
            blocks) in
  let averageMaxPriorityFee :=
    mean (map (fun block => elem (Fee.maxPriorityFeePerGas block) (Fin (ofZ 1)))
            blocks) in
  let fastMaxPriorityFee :=
    mean (map (fun block => elem (Fee.maxPriorityFeePerGas block) (Fin (ofZ 2)))
            blocks) in
  block <- await CallGetBlockPending (getBlock_pending p) ;;
  baseFeePerGas <- lift (toNumber (Block.baseFeePerGas block)) ;;
  emit (ConsoleLog
          {| slow := add (Fin baseFeePerGas) slowMaxPriorityFee;
             average := add (Fin baseFeePerGas) averageMaxPriorityFee;
             fast := add (Fin baseFeePerGas) fastMaxPriorityFee |}).

(** The loop body runs four times, so four units of fuel are enough
    ([gasEstimator_fuel_enough] below). *)
Definition gasEstimator (p : provider) : list event * result unit :=
  gasEstimator_fuel 4 p [].

(** What the process leaves behind: the events of the run, what
    [console.error] was given, and the exit status. *)
Record exit : Type := mkExit {
  events : list event;
  reported : option error;
  status : Z
}.

(** The last statement of the script:
    [gasEstimator().then(() => process.exit(0))
       .catch((error) => { console.error(error); process.exit(1) })]. *)
Definition main (p : provider) : exit :=
  match gasEstimator p with
  | (tr, Ok _) => mkExit tr None 0
  | (tr, Err e) => mkExit tr (Some e) 1
  end.


(** Whether a trace holds a [console.log]. *)
Fixpoint printed (tr : list event) : bool :=
  match tr with
  | [] => false
  | ConsoleLog _ :: _ => true
  | _ :: rest => printed rest
  end.

(** The integers [toNumber] converts. *)
Definition fits (b : BigNumber) : bool := Z.abs b <? 2 ^ 53.

(** The values of a block that [dataFormatter] converts: the fees of the
    type-2 transactions and three fields of the header. *)
Definition convertible (blk : Block.t) : bool :=
  forallb (fun tx => fits (Tx.maxPriorityFeePerGas tx))
    (filter (fun tx => Tx.type tx =? 2) (Block.transactions blk))
  && fits (Block.baseFeePerGas blk)
  && fits (Block.gasUsed blk)
  && fits (Block.gasLimit blk).

(** ** The specification's words, for comparison with the code *)

(** Steps 3 to 5 of section 4.1: the value at fractional rank [pos] of a
    sequence that is already sorted ascending. *)
Definition interpolate (sorted : list Qc) (pos : Qc) : Qc :=
  let base := Qfloor pos in
  let rest := (pos - ofZ base)%Qc in
  if base + 1 <? Z.of_nat (length sorted) then
    (nth (Z.to_nat base) sorted (ofZ 0)
     + rest * (nth (Z.to_nat (base + 1)) sorted (ofZ 0)
               - nth (Z.to_nat base) sorted (ofZ 0)))%Qc
  else nth (Z.to_nat base) sorted (ofZ 0).

(** The type-7 estimator of section 4.1, steps 2 to 5. *)
Definition type7 (sorted : list Qc) (q : Qc) : Qc :=
  let pos := ((ofNat (length sorted) - ofZ 1) * q)%Qc in
  interpolate sorted pos.

(** The block numbers [first, first + 1, ...], [count] of them. *)
Fixpoint range (first : Z) (count : nat) : list Z :=
  match count with
  | O => []
  | S count' => first :: range (first + 1) count'
  end.

(** The tier of index [i] of every block of the window. *)
Definition tier (i : Z) (blocks : list Fee.t) : list val :=
  map (fun block => elem (Fee.maxPriorityFeePerGas block) (Fin (ofZ i))) blocks.

(** The estimation result of sections 3 and 4.2: each bid is the base fee
    of the pending block plus the mean of its tier across the window. *)
Definition estimation (blocks : list Fee.t) (baseFeePerGas : Qc) : estimate :=
  {| slow := add (Fin baseFeePerGas) (mean (tier 0 blocks));
     average := add (Fin baseFeePerGas) (mean (tier 1 blocks));
     fast := add (Fin baseFeePerGas) (mean (tier 2 blocks)) |}.

(** A block fee summary whose three tiers are finite and non-decreasing. *)
Definition nondecreasing_tiers (f : Fee.t) : Prop :=
  exists a b c,
    Fee.maxPriorityFeePerGas f = [Num (Fin a); Num (Fin b); Num (Fin c)] /\
    (a <= b)%Qc /\ (b <= c)%Qc.

(** The additive total of a sequence of rationals. *)
Definition total (samples : list Qc) : Qc :=
  fold_right Qcplus (ofZ 0) samples.



(** ** Fixtures *)

(** The summary of a block that [dataFormatter] accepts. *)
Definition formatted (blk : Block.t) : Fee.t :=
  match dataFormatter blk with
  | Ok f => f
  | Err _ => Fee.mk 0 (ofZ 0) [] NaN
  end.

(** A block with three fee-market transactions and a legacy one. *)
Definition fixture_block (n : Z) : Block.t :=
  Block.mk n 13000000000 12000000 30000000
    [Tx.mk 2 1500000000; Tx.mk 0 7; Tx.mk 2 2000000000; Tx.mk 2 1000000000].

(** A block without any fee-market transaction. *)
Definition legacy_block (n : Z) : Block.t :=
  Block.mk n 13000000000 21000 30000000 [Tx.mk 0 5].

Definition fixture_pending : Block.t :=
  Block.mk 100 13969109554 0 30000000 [].

Definition fixture_provider : provider :=
  mkProvider (Some 100) (fun i => Some (fixture_block i)) (Some fixture_pending).

Definition legacy_provider : provider :=
  mkProvider (Some 100) (fun i => Some (legacy_block i)) (Some fixture_pending).





(** * Properties *)

(** ** Rationals in lowest terms *)

Section QcFacts.

Lemma this_plus (x y : Qc) : (this (x + y)%Qc == this x + this y)%Q.
Proof. apply Qred_correct. Qed.

Lemma this_mult (x y : Qc) : (this (x * y)%Qc == this x * this y)%Q.
Proof. apply Qred_correct. Qed.

Lemma this_opp (x : Qc) : (this (- x)%Qc == - this x)%Q.
Proof. apply Qred_correct. Qed.

Lemma this_minus (x y : Qc) : (this (x - y)%Qc == this x - this y)%Q.
Proof. unfold Qcminus. rewrite this_plus, this_opp. reflexivity. Qed.

Lemma this_Q2Qc (q : Q) : (this (Q2Qc q) == q)%Q.
Proof. apply Qred_correct. Qed.

Lemma this_ofZ (z : Z) : this (ofZ z) = inject_Z z.
Proof.
  unfold ofZ, Q2Qc. cbn [this]. apply Qred_identity. apply Z.gcd_1_r.
Qed.

Lemma ofZ_plus (a b : Z) : (ofZ a + ofZ b)%Qc = ofZ (a + b).
Proof.
  apply Qc_is_canon. rewrite this_plus, !this_ofZ, inject_Z_plus. reflexivity.
Qed.

Lemma ofZ_minus (a b : Z) : (ofZ a - ofZ b)%Qc = ofZ (a - b).
Proof.
  apply Qc_is_canon.
  rewrite this_minus, !this_ofZ. unfold Z.sub.
  rewrite inject_Z_plus, inject_Z_opp. reflexivity.
Qed.

Lemma ofZ_le (a b : Z) : (ofZ a <= ofZ b)%Qc <-> a <= b.
Proof. unfold Qcle. rewrite !this_ofZ, Zle_Qle. reflexivity. Qed.

Lemma ofZ_inj (a b : Z) : ofZ a = ofZ b -> a = b.
Proof.
  intros H. apply (f_equal this) in H. rewrite !this_ofZ in H.
  now injection H.
Qed.

Lemma leb_le (x y : Qc) : leb x y = true <-> (x <= y)%Qc.
Proof. unfold leb, Qcle. apply Qle_bool_iff. Qed.

Lemma eqb0_true (x : Qc) : eqb0 x = true <-> x = ofZ 0.
Proof.
  unfold eqb0. rewrite Qeq_bool_iff. split.
  - intros H. apply Qc_is_canon. rewrite this_ofZ. exact H.
  - intros ->. reflexivity.
Qed.



End QcFacts.

(** Moves an order or equality goal on [Qc] to [Q], where [lra] and
    [nra] work. *)
Ltac to_Q :=
  unfold Qcle, Qclt in *;
  repeat (rewrite ?this_plus, ?this_minus, ?this_mult, ?this_opp, ?this_ofZ in * );
  change (inject_Z 0) with 0%Q in *; change (inject_Z 1) with 1%Q in *.

(** ** Sorting *)

Section Sorting.

Lemma compareFn_le (x y : Qc) :
  leb (compareFn x y) (ofZ 0) = true <-> (x <= y)%Qc.
Proof.
  rewrite leb_le. unfold compareFn. split; intros H; to_Q; lra.
Qed.

Lemma sort_insert_perm (x : Qc) (l : list Qc) :
  Permutation (x :: l) (sort_insert compareFn x l).
Proof.
  induction l as [|y t IH]; simpl.
  - apply Permutation_refl.
  - destruct (leb (compareFn x y) (ofZ 0)).
    + apply Permutation_refl.
    + eapply perm_trans; [apply perm_swap|]. now apply perm_skip.
Qed.

Lemma asc_perm (l : list Qc) : Permutation l (asc l).
Proof.
  unfold asc. induction l as [|x t IH]; simpl.
  - constructor.
  - eapply perm_trans; [apply perm_skip, IH | apply sort_insert_perm].
Qed.

Lemma asc_length (l : list Qc) : length (asc l) = length l.
Proof. symmetry. apply Permutation_length, asc_perm. Qed.

Lemma sort_insert_sorted (x : Qc) (l : list Qc) :
  StronglySorted Qcle l -> StronglySorted Qcle (sort_insert compareFn x l).
Proof.
  induction 1 as [|y t Ht IH Hy]; simpl.
  - repeat constructor.
  - destruct (leb (compareFn x y) (ofZ 0)) eqn:E.
    + apply compareFn_le in E. constructor.
      * now constructor.
      * constructor; [exact E|].
        eapply Forall_impl; [|exact Hy].
        intros z Hz. eapply Qcle_trans; eassumption.
    + assert (Hyx : (y <= x)%Qc).
      { apply Qcnot_lt_le. intros Hlt.
        apply Qclt_le_weak, compareFn_le in Hlt. congruence. }
      constructor; [exact IH|].
      eapply Permutation_Forall; [apply sort_insert_perm|].
      now constructor.
Qed.

Lemma asc_sorted (l : list Qc) : StronglySorted Qcle (asc l).
Proof.
  unfold asc. induction l as [|x t IH]; simpl.
  - constructor.
  - now apply sort_insert_sorted.
Qed.

(** A sequence has one ascending arrangement only. *)
Lemma sorted_perm_unique (l1 : list Qc) :
  forall l2, StronglySorted Qcle l1 -> StronglySorted Qcle l2 ->
             Permutation l1 l2 -> l1 = l2.
Proof.
  induction l1 as [|x t IH]; intros l2 H1 H2 HP.
  - now apply Permutation_nil in HP.
  - destruct l2 as [|y u].
    + symmetry in HP. now apply Permutation_nil in HP.
    + inversion H1 as [|? ? Ht Hx]; inversion H2 as [|? ? Hu Hy]; subst.
      assert (x = y) as ->.
      { apply Qcle_antisym.
        - assert (Hin : In y (x :: t)).
          { eapply Permutation_in; [symmetry; exact HP | now left]. }
          destruct Hin as [->|Hin]; [apply Qcle_refl|].
          rewrite Forall_forall in Hx. now apply Hx.
        - assert (Hin : In x (y :: u)).
          { eapply Permutation_in; [exact HP | now left]. }
          destruct Hin as [->|Hin]; [apply Qcle_refl|].
          rewrite Forall_forall in Hy. now apply Hy. }
      f_equal. apply IH; try assumption.
      eapply Permutation_cons_inv; exact HP.
Qed.

Lemma asc_unique (l s : list Qc) :
  Permutation l s -> StronglySorted Qcle s -> asc l = s.
Proof.
  intros HP Hs. apply sorted_perm_unique; [apply asc_sorted | exact Hs |].
  eapply perm_trans; [symmetry; apply asc_perm | exact HP].
Qed.

Lemma asc_idem (l : list Qc) : asc (asc l) = asc l.
Proof. apply asc_unique; [apply Permutation_refl | apply asc_sorted]. Qed.

Lemma Qcle_transitive : Relations_1.Transitive Qcle.
Proof. intros x y z. apply Qcle_trans. Qed.

Lemma Sorted_strongly (l : list Qc) :
  Sorted Qcle l <-> StronglySorted Qcle l.
Proof.
  split.
  - apply Sorted_StronglySorted, Qcle_transitive.
  - apply StronglySorted_Sorted.
Qed.

Lemma sorted_nth_le (s : list Qc) (d : Qc) :
  StronglySorted Qcle s ->
  forall i j, (i <= j < length s)%nat -> (nth i s d <= nth j s d)%Qc.
Proof.
  induction 1 as [|x t Ht IH Hx]; intros i j Hij; simpl in *; [lia|].
  destruct i as [|i], j as [|j]; try lia.
  - apply Qcle_refl.
  - rewrite Forall_forall in Hx. apply Hx, nth_In. lia.
  - apply IH. lia.
Qed.

End Sorting.

(** ** [quantile] *)

Section Quantile.

Lemma elem_numbers (s : list Qc) (k : Z) :
  0 <= k ->
  elem (numbers s) (Fin (ofZ k)) =
    if k <? Z.of_nat (length s)
    then Num (Fin (nth (Z.to_nat k) s (ofZ 0)))
    else Undefined.
Proof.
  intros Hk. unfold elem. rewrite this_ofZ. cbn [inject_Z Qden Qnum].
  rewrite Pos.eqb_refl. cbn [andb].
  destruct (Z.leb_spec 0 k); [|lia].
  unfold numbers. destruct (Z.ltb_spec k (Z.of_nat (length s))).
  - rewrite (nth_indep _ Undefined (Num (Fin (ofZ 0)))).
    + apply (map_nth (fun x => Num (Fin x))).
    + rewrite length_map. lia.
  - apply nth_overflow. rewrite length_map. lia.
Qed.

Lemma quantile_fst (arr : list Qc) (q : Qc) : fst (quantile arr q) = asc arr.
Proof. unfold quantile. now destruct (defined _). Qed.

(** The rank [(length - 1) * q] and its integer part, for a non-empty
    sequence and [q] between 0 and 1. *)
Lemma rank_bounds (n : nat) (q : Qc) :
  (0 < n)%nat -> (ofZ 0 <= q)%Qc -> (q <= ofZ 1)%Qc ->
  (ofZ 0 <= (ofNat n - ofZ 1) * q)%Qc /\
  ((ofNat n - ofZ 1) * q <= ofZ (Z.of_nat n - 1))%Qc.
Proof.
  intros Hn H0 H1. unfold ofNat. rewrite ofZ_minus.
  assert (Hm : (ofZ 0 <= ofZ (Z.of_nat n - 1))%Qc) by (apply ofZ_le; lia).
  set (m := ofZ (Z.of_nat n - 1)) in *. clearbody m.
  split; to_Q; nra.
Qed.

Lemma floor_bounds (x : Qc) (a b : Z) :
  (ofZ a <= x)%Qc -> (x <= ofZ b)%Qc -> a <= Qfloor x <= b.
Proof.
  intros Ha Hb. unfold Qcle in *. rewrite this_ofZ in *. split.
  - rewrite <- (Qfloor_Z a). now apply Qfloor_resp_le.
  - rewrite <- (Qfloor_Z b). now apply Qfloor_resp_le.
Qed.

(** On its contract, the code computes the type-7 estimator of the
    sorted array. *)
Lemma quantile_type7 (arr : list Qc) (q : Qc) :
  arr <> [] -> (ofZ 0 <= q)%Qc -> (q <= ofZ 1)%Qc ->
  quantile arr q = (asc arr, Num (Fin (type7 (asc arr) q))).
Proof.
  intros Hne H0 H1. unfold quantile, type7, interpolate.
  set (s := asc arr).
  assert (Hn : (0 < length s)%nat).
  { unfold s. rewrite asc_length. destruct arr; [congruence | simpl; lia]. }
  cbn [sub mul floor add].
  set (pos := ((ofNat (length s) - ofZ 1) * q)%Qc).
  destruct (rank_bounds (length s) q Hn H0 H1) as [Hp0 Hp1]. fold pos in Hp0, Hp1.
  destruct (floor_bounds pos _ _ Hp0 Hp1) as [Hb0 Hb1].
  set (base := Qfloor pos) in *.
  rewrite ofZ_plus.
  rewrite (elem_numbers s (base + 1)) by lia.
  rewrite (elem_numbers s base) by lia.
  destruct (Z.ltb_spec base (Z.of_nat (length s))); [|lia].
  destruct (base + 1 <? Z.of_nat (length s)); reflexivity.
Qed.

Lemma quantile_asc (arr : list Qc) (q : Qc) :
  quantile (asc arr) q = quantile arr q.
Proof. unfold quantile. now rewrite asc_idem. Qed.

End Quantile.

(** ** The interpolation is monotone in the rank *)

Section Interpolation.

Variable s : list Qc.
Hypothesis s_sorted : StronglySorted Qcle s.

Let d : Qc := ofZ 0.

Lemma floor_spec (p : Qc) :
  (ofZ (Qfloor p) <= p)%Qc /\ (p < ofZ (Qfloor p + 1))%Qc.
Proof.
  unfold Qcle, Qclt. rewrite !this_ofZ. split.
  - apply Qfloor_le.
  - apply Qlt_floor.
Qed.

Lemma interpolate_bounds (p : Qc) :
  (ofZ 0 <= p)%Qc -> (p <= ofZ (Z.of_nat (length s) - 1))%Qc ->
  (nth (Z.to_nat (Qfloor p)) s d <= interpolate s p)%Qc /\
  (Qfloor p + 1 < Z.of_nat (length s) ->
   (interpolate s p <= nth (Z.to_nat (Qfloor p + 1)) s d)%Qc).
Proof.
  intros H0 H1. unfold interpolate. fold d.
  destruct (floor_bounds p _ _ H0 H1) as [Hb0 Hb1].
  destruct (floor_spec p) as [Hf0 Hf1].
  set (b := Qfloor p) in *.
  destruct (Z.ltb_spec (b + 1) (Z.of_nat (length s))) as [Hlt|Hge].
  - assert (Hs : (nth (Z.to_nat b) s d <= nth (Z.to_nat (b + 1)) s d)%Qc).
    { apply sorted_nth_le; [exact s_sorted | lia]. }
    set (x := nth (Z.to_nat b) s d) in *.
    set (y := nth (Z.to_nat (b + 1)) s d) in *.
    clearbody x y. rewrite <- ofZ_plus in Hf1.
    split; [|intros _]; to_Q; nra.
  - split; [apply Qcle_refl | lia].
Qed.

Lemma interpolate_mono (p1 p2 : Qc) :
  (ofZ 0 <= p1)%Qc -> (p1 <= p2)%Qc ->
  (p2 <= ofZ (Z.of_nat (length s) - 1))%Qc ->
  (interpolate s p1 <= interpolate s p2)%Qc.
Proof.
  intros H0 H12 H2.
  assert (H1 : (p1 <= ofZ (Z.of_nat (length s) - 1))%Qc)
    by (eapply Qcle_trans; eassumption).
  assert (H0' : (ofZ 0 <= p2)%Qc) by (eapply Qcle_trans; eassumption).
  assert (Hb : Qfloor p1 <= Qfloor p2) by now apply Qfloor_resp_le.
  destruct (floor_bounds p1 _ _ H0 H1) as [Ha0 Ha1].
  destruct (floor_bounds p2 _ _ H0' H2) as [Hc0 Hc1].
  destruct (Z.eq_dec (Qfloor p1) (Qfloor p2)) as [E|N].
  - (* the same segment *)
    unfold interpolate. fold d. rewrite <- E.
    destruct (floor_spec p1) as [Hf0 Hf1].
    set (b := Qfloor p1) in *.
    destruct (Z.ltb_spec (b + 1) (Z.of_nat (length s))) as [Hlt|Hge];
      [|apply Qcle_refl].
    assert (Hs : (nth (Z.to_nat b) s d <= nth (Z.to_nat (b + 1)) s d)%Qc).
    { apply sorted_nth_le; [exact s_sorted | lia]. }
    set (x := nth (Z.to_nat b) s d) in *.
    set (y := nth (Z.to_nat (b + 1)) s d) in *.
    clearbody x y. to_Q. nra.
  - (* a later segment *)
    destruct (interpolate_bounds p1 H0 H1) as [_ Hup].
    destruct (interpolate_bounds p2 H0' H2) as [Hlow _].
    eapply Qcle_trans; [apply Hup; lia|].
    eapply Qcle_trans; [|exact Hlow].
    apply sorted_nth_le; [exact s_sorted | lia].
Qed.

Lemma type7_mono (q1 q2 : Qc) :
  s <> [] ->
  (ofZ 0 <= q1)%Qc -> (q1 <= q2)%Qc -> (q2 <= ofZ 1)%Qc ->
  (type7 s q1 <= type7 s q2)%Qc.
Proof.
  intros Hne H0 H12 H2. unfold type7.
  assert (Hn : (0 < length s)%nat) by (destruct s; [congruence | simpl; lia]).
  assert (H0' : (ofZ 0 <= q2)%Qc) by (eapply Qcle_trans; eassumption).
  destruct (rank_bounds (length s) q1 Hn H0) as [Hp _];
    [eapply Qcle_trans; eassumption|].
  destruct (rank_bounds (length s) q2 Hn H0' H2) as [_ Hq].
  apply interpolate_mono; try assumption.
  assert (Hm : (ofZ 0 <= ofNat (length s) - ofZ 1)%Qc).
  { unfold ofNat. rewrite ofZ_minus. apply ofZ_le. lia. }
  set (m := (ofNat (length s) - ofZ 1)%Qc) in *. clearbody m.
  to_Q. nra.
Qed.

End Interpolation.

(** ** [sum] and [mean] *)

Section SumMean.

Lemma add_comm (a b : num) : add a b = add b a.
Proof.
  destruct a as [x|s|], b as [y|t|]; simpl; try reflexivity.
  - now rewrite Qcplus_comm.
  - now destruct s, t.
Qed.

Lemma add_assoc (a b c : num) : add (add a b) c = add a (add b c).
Proof.
  destruct a as [x|s|], b as [y|t|], c as [z|u|]; simpl; try reflexivity.
  all: try (now rewrite Qcplus_assoc).
  all: repeat match goal with b : bool |- _ => destruct b end; reflexivity.
Qed.

Lemma add_0_l (a : num) : add (Fin (ofZ 0)) a = a.
Proof.
  destruct a as [x|s|]; simpl; try reflexivity.
  f_equal. apply Qcplus_0_l.
Qed.


Lemma fold_add_numbers (l : list Qc) :
  forall a, fold_left (fun a b => add a (ToNumber b)) (numbers l) (Fin a) =
            Fin (a + total l)%Qc.
Proof.
  induction l as [|x t IH]; intros a; simpl.
  - f_equal. symmetry. apply Qcplus_0_r.
  - rewrite IH. f_equal. symmetry. apply Qcplus_assoc.
Qed.

Lemma sum_numbers (l : list Qc) : sum (numbers l) = Fin (total l).
Proof. unfold sum. rewrite fold_add_numbers. f_equal. apply Qcplus_0_l. Qed.

Lemma ofNat_nonzero (n : nat) : (0 < n)%nat -> eqb0 (ofNat n) = false.
Proof.
  intros Hn. destruct (eqb0 (ofNat n)) eqn:E; [|reflexivity].
  apply eqb0_true, ofZ_inj in E. lia.
Qed.

Lemma mean_numbers (l : list Qc) :
  l <> [] ->
  mean (numbers l) =
    Fin (ofZ (Qfloor (total l / ofNat (length l) + Q2Qc (1 # 2))%Qc)).
Proof.
  intros Hne. unfold mean. rewrite sum_numbers. unfold numbers.
  rewrite length_map. cbn [div].
  rewrite ofNat_nonzero by (destruct l; [congruence | simpl; lia]).
  reflexivity.
Qed.

Lemma total_le (la lb : list Qc) :
  Forall2 Qcle la lb -> (total la <= total lb)%Qc.
Proof.
  induction 1 as [|x y la lb Hxy _ IH]; simpl.
  - apply Qcle_refl.
  - now apply Qcplus_le_compat.
Qed.

Lemma Qcinv_nonneg (x : Qc) : (ofZ 0 <= x)%Qc -> (ofZ 0 <= / x)%Qc.
Proof.
  unfold Qcle. rewrite this_ofZ. intros H.
  unfold Qcinv. rewrite this_Q2Qc. now apply Qinv_le_0_compat.
Qed.

(** The rounded mean is monotone. *)
Lemma mean_numbers_le (la lb : list Qc) :
  la <> [] -> Forall2 Qcle la lb ->
  exists x y, mean (numbers la) = Fin x /\ mean (numbers lb) = Fin y
              /\ (x <= y)%Qc.
Proof.
  intros Hne HF.
  assert (Hlen : length la = length lb) by (eapply Forall2_length; eassumption).
  assert (Hne' : lb <> []) by (destruct la, lb; simpl in *; congruence).
  rewrite (mean_numbers la Hne), (mean_numbers lb Hne'), <- Hlen.
  eexists _, _. split; [reflexivity|]. split; [reflexivity|].
  apply ofZ_le, Qfloor_resp_le. fold (Qcle (total la / ofNat (length la) + Q2Qc (1 # 2))%Qc
    (total lb / ofNat (length la) + Q2Qc (1 # 2))%Qc).
  apply Qcplus_le_compat; [|apply Qcle_refl].
  unfold Qcdiv. apply Qcmult_le_compat_r; [now apply total_le|].
  apply (Qcinv_nonneg (ofNat (length la))). apply ofZ_le. lia.
Qed.

End SumMean.

(** ** [dataFormatter] *)

Section DataFormatter.

Lemma elem_nil (i : num) : elem [] i = Undefined.
Proof.
  destruct i as [x| |]; simpl; try reflexivity.
  destruct (_ && _); [|reflexivity]. now destruct (Z.to_nat (Qnum x)).
Qed.

Lemma quantile_empty (q : Qc) : quantile [] q = ([], Undefined).
Proof.
  unfold quantile. change (asc []) with (@nil Qc).
  change (numbers []) with (@nil val). now rewrite !elem_nil.
Qed.

Lemma map_toNumber_length (txs : list Tx.t) (fees : list Qc) :
  map_toNumber txs = Ok fees -> length fees = length txs.
Proof.
  revert fees. induction txs as [|tx rest IH]; simpl; intros fees H.
  - now inversion H.
  - destruct (toNumber (Tx.maxPriorityFeePerGas tx)); [|discriminate].
    simpl in H. destruct (map_toNumber rest); [|discriminate].
    inversion H; subst. simpl. f_equal. now apply IH.
Qed.

(** The three tiers are the three quantiles of the fees of the type-2
    transactions, whatever the first call did to the array. *)
Lemma dataFormatter_tiers (blk : Block.t) (f : Fee.t) :
  dataFormatter blk = Ok f ->
  exists fees,
    map_toNumber (filter (fun tx => Tx.type tx =? 2) (Block.transactions blk))
      = Ok fees /\
    Fee.maxPriorityFeePerGas f =
      [snd (quantile fees (Q2Qc (3 # 10)));
       snd (quantile fees (Q2Qc (6 # 10)));
       snd (quantile fees (Q2Qc (9 # 10)))].
Proof.
  unfold dataFormatter. intros H.
  destruct (map_toNumber _) as [fees|]; [|discriminate]. cbn [rbind] in H.
  exists fees. split; [reflexivity|].
  destruct (quantile fees (Q2Qc (3 # 10))) as [arr1 v1] eqn:E1.
  destruct (quantile arr1 (Q2Qc (6 # 10))) as [arr2 v2] eqn:E2.
  destruct (quantile arr2 (Q2Qc (9 # 10))) as [arr3 v3] eqn:E3.
  assert (A1 : arr1 = asc fees)
    by (rewrite <- (quantile_fst fees (Q2Qc (3 # 10))), E1; reflexivity).
  assert (A2 : arr2 = asc arr1)
    by (rewrite <- (quantile_fst arr1 (Q2Qc (6 # 10))), E2; reflexivity).
  subst arr2 arr1. rewrite asc_idem in E3. rewrite quantile_asc in E2, E3.
  destruct (toNumber (Block.baseFeePerGas blk)); [|discriminate].
  destruct (toNumber (Block.gasUsed blk)); [|discriminate].
  destruct (toNumber (Block.gasLimit blk)); [|discriminate].
  cbn [rbind] in H. inversion H; subst. cbn [Fee.maxPriorityFeePerGas].
  now rewrite E2, E3.
Qed.

Lemma tier_constants :
  (ofZ 0 <= Q2Qc (3 # 10))%Qc /\ (Q2Qc (3 # 10) <= Q2Qc (6 # 10))%Qc /\
  (Q2Qc (6 # 10) <= Q2Qc (9 # 10))%Qc /\ (Q2Qc (9 # 10) <= ofZ 1)%Qc.
Proof. repeat split; apply leb_le; vm_compute; reflexivity. Qed.

Lemma quantile_tiers_ordered (samples : list Qc) :
  samples <> [] ->
  exists a b c,
    snd (quantile samples (Q2Qc (3 # 10))) = Num (Fin a) /\
    snd (quantile samples (Q2Qc (6 # 10))) = Num (Fin b) /\
    snd (quantile samples (Q2Qc (9 # 10))) = Num (Fin c) /\
    (a <= b)%Qc /\ (b <= c)%Qc.
Proof.
  intros Hne. destruct tier_constants as (H0 & H1 & H2 & H3).
  assert (Hs : asc samples <> []).
  { intros E. apply Hne. apply Permutation_nil. rewrite <- E.
    symmetry. apply asc_perm. }
  pose proof (Qcle_trans _ _ _ H0 H1) as L6.
  pose proof (Qcle_trans _ _ _ L6 H2) as L9.
  pose proof (Qcle_trans _ _ _ H2 H3) as U6.
  pose proof (Qcle_trans _ _ _ H1 U6) as U3.
  rewrite (quantile_type7 samples _ Hne H0 U3).
  rewrite (quantile_type7 samples _ Hne L6 U6).
  rewrite (quantile_type7 samples _ Hne L9 H3).
  eexists _, _, _. cbn [snd].
  split; [reflexivity|]. split; [reflexivity|]. split; [reflexivity|].
  split; apply type7_mono; try assumption; apply asc_sorted.
Qed.

End DataFormatter.

(** ** [gasEstimator] *)

Section Estimator.

Variable p : provider.



(** The loop run over blocks that are all served and formatted. *)
Lemma fetchBlocks_run (blk : Z -> Block.t) (fmt : Z -> Fee.t) (count : nat) :
  forall fuel i blockNumber blocks tr,
    (count <= fuel)%nat ->
    i + Z.of_nat count = blockNumber ->
    (forall j, i <= j < blockNumber ->
               getBlockWithTransactions p j = Some (blk j) /\
               dataFormatter (blk j) = Ok (fmt j)) ->
    fetchBlocks_fuel fuel p i blockNumber blocks tr =
      (tr ++ map CallGetBlockWithTransactions (range i count),
       Ok (blocks ++ map fmt (range i count))).
Proof.
  induction count as [|count IH]; intros fuel i N blocks tr Hf Hi Hs.
  - simpl. rewrite !app_nil_r.
    destruct fuel; simpl; destruct (Z.ltb_spec i N); try reflexivity; lia.
  - destruct fuel as [|fuel]; [lia|]. simpl.
    destruct (Z.ltb_spec i N); [|lia].
    destruct (Hs i) as [Hg Hd]; [lia|].
    unfold bind at 1. unfold await. rewrite Hg.
    unfold bind at 1. unfold lift. rewrite Hd.
    rewrite (IH fuel (i + 1) N); try lia.
    + now rewrite <- !app_assoc.
    + intros j Hj. apply Hs. lia.
Qed.

(** A loop that ends well was served and formatted every block. *)
Lemma fetchBlocks_inv (blk : Z -> Block.t) (count : nat) :
  forall fuel i blockNumber blocks tr tr' out,
    i + Z.of_nat count = blockNumber ->
    (forall j, i <= j < blockNumber ->
               getBlockWithTransactions p j = Some (blk j)) ->
    fetchBlocks_fuel fuel p i blockNumber blocks tr = (tr', Ok out) ->
    exists fs,
      out = blocks ++ fs /\
      tr' = tr ++ map CallGetBlockWithTransactions (range i count) /\
      Forall2 (fun j f => dataFormatter (blk j) = Ok f) (range i count) fs.
Proof.
  induction count as [|count IH]; intros fuel i N blocks tr tr' out Hi Hs Hrun.
  - exists []. simpl. rewrite !app_nil_r.
    destruct fuel; simpl in Hrun; destruct (Z.ltb_spec i N); try lia;
      inversion Hrun; repeat split; constructor.
  - destruct fuel as [|fuel]; simpl in Hrun;
      destruct (Z.ltb_spec i N); try lia; [discriminate|].
    unfold bind at 1 in Hrun. unfold await in Hrun.
    rewrite (Hs i) in Hrun by lia.
    unfold bind at 1 in Hrun. unfold lift in Hrun.
    destruct (dataFormatter (blk i)) as [f|] eqn:Hd; [|discriminate].
    apply (IH fuel (i + 1) N) in Hrun; try lia.
    + destruct Hrun as (fs & -> & -> & HF). exists (f :: fs).
      simpl. rewrite <- !app_assoc. repeat split. now constructor.
    + intros j Hj. apply Hs. lia.
Qed.

End Estimator.

(** ** The three means *)

Section Estimation.

Lemma range_In (count : nat) :
  forall first j, In j (range first count) ->
                  first <= j < first + Z.of_nat count.
Proof.
  induction count as [|count IH]; intros first j H; simpl in H; [easy|].
  destruct H as [<-|H]; [lia|]. apply IH in H. lia.
Qed.

Lemma Forall2_In_r {A B} (P : A -> B -> Prop) (l1 : list A) (l2 : list B) :
  Forall2 P l1 l2 -> forall y, In y l2 -> exists x, In x l1 /\ P x y.
Proof.
  induction 1 as [|x y l1 l2 Hxy _ IH]; intros z Hz; [easy|].
  destruct Hz as [<-|Hz].
  - exists x. split; [now left | assumption].
  - destruct (IH z Hz) as (x' & Hin & HP). exists x'. split; [now right | assumption].
Qed.

Lemma tier_cons (i : Z) (f : Fee.t) (fs : list Fee.t) :
  tier i (f :: fs) =
    elem (Fee.maxPriorityFeePerGas f) (Fin (ofZ i)) :: tier i fs.
Proof. reflexivity. Qed.


Lemma tier_columns (fs : list Fee.t) :
  Forall nondecreasing_tiers fs ->
  exists la lb lc,
    tier 0 fs = numbers la /\ tier 1 fs = numbers lb /\
    tier 2 fs = numbers lc /\
    Forall2 Qcle la lb /\ Forall2 Qcle lb lc /\ length la = length fs.
Proof.
  induction 1 as [|f fs (a & b & c & Hf & Hab & Hbc) _ IH].
  - exists [], [], []. repeat split; constructor.
  - destruct IH as (la & lb & lc & H0 & H1 & H2 & Hl1 & Hl2 & Hlen).
    exists (a :: la), (b :: lb), (c :: lc).
    rewrite !tier_cons, H0, H1, H2, Hf. simpl length. rewrite Hlen.
    repeat split; try reflexivity; now constructor.
Qed.

Lemma estimation_ordered (fs : list Fee.t) (base : Qc) :
  fs <> [] -> Forall nondecreasing_tiers fs ->
  exists s a f,
    estimation fs base = {| slow := Fin s; average := Fin a; fast := Fin f |}
    /\ (s <= a)%Qc /\ (a <= f)%Qc.
Proof.
  intros Hne HF.
  destruct (tier_columns fs HF) as (la & lb & lc & H0 & H1 & H2 & Hab & Hbc & Hlen).
  assert (Ha : la <> []) by (destruct la, fs; simpl in *; congruence).
  assert (Hb : lb <> []).
  { apply Forall2_length in Hab. destruct la, lb; simpl in *; congruence. }
  destruct (mean_numbers_le la lb Ha Hab) as (x & y & Hx & Hy & Hxy).
  destruct (mean_numbers_le lb lc Hb Hbc) as (y' & z & Hy' & Hz & Hyz).
  rewrite Hy in Hy'. inversion Hy'; subst y'.
  unfold estimation. rewrite H0, H1, H2, Hx, Hy, Hz. cbn [add].
  eexists _, _, _. split; [reflexivity|].
  split; apply Qcplus_le_compat; try apply Qcle_refl; assumption.
Qed.

Lemma formatted_nondecreasing (blk : Block.t) (f : Fee.t) :
  dataFormatter blk = Ok f ->
  filter (fun tx => Tx.type tx =? 2) (Block.transactions blk) <> [] ->
  nondecreasing_tiers f.
Proof.
  intros Hd Hne. destruct (dataFormatter_tiers blk f Hd) as (fees & Hm & Ht).
  assert (Hfees : fees <> []).
  { apply map_toNumber_length in Hm. intros ->.
    destruct (filter _ _); [congruence | discriminate]. }
  destruct (quantile_tiers_ordered fees Hfees) as (a & b & c & Ea & Eb & Ec & Hab & Hbc).
  exists a, b, c. rewrite Ht, Ea, Eb, Ec. auto.
Qed.

End Estimation.

(** ** A complete run *)

Section Run.

Variable p : provider.
Variable blockNumber : Z.
Variable blk : Z -> Block.t.
Variable fmt : Z -> Fee.t.
Variable pending : Block.t.
Variable baseFeePerGas : Qc.

Hypothesis number_served : getBlockNumber p = Some blockNumber.
Hypothesis blocks_served :
  forall j, blockNumber - 4 <= j < blockNumber ->
            getBlockWithTransactions p j = Some (blk j) /\
            dataFormatter (blk j) = Ok (fmt j).
Hypothesis pending_served : getBlock_pending p = Some pending.
Hypothesis pending_fits :
  toNumber (Block.baseFeePerGas pending) = Ok baseFeePerGas.

Lemma gasEstimator_run :
  gasEstimator p =
    ([CallGetBlockNumber;
      CallGetBlockWithTransactions (blockNumber - 4);
      CallGetBlockWithTransactions (blockNumber - 3);
      CallGetBlockWithTransactions (blockNumber - 2);
      CallGetBlockWithTransactions (blockNumber - 1);
      CallGetBlockPending;
      ConsoleLog
        (estimation
           (map fmt [blockNumber - 4; blockNumber - 3;
                     blockNumber - 2; blockNumber - 1])
           baseFeePerGas)],
     Ok tt).
Proof.
  unfold gasEstimator, gasEstimator_fuel.
  unfold bind at 1. unfold await at 1. rewrite number_served.
  unfold bind at 1.
  rewrite (fetchBlocks_run p blk fmt 4 4 (blockNumber - 4) blockNumber)
    by (lia || exact blocks_served).
  unfold bind at 1. unfold await at 1. rewrite pending_served.
  unfold bind at 1. unfold lift. rewrite pending_fits.
  unfold emit. cbn [range map app].
  replace (blockNumber - 4 + 1) with (blockNumber - 3) by lia.
  replace (blockNumber - 3 + 1) with (blockNumber - 2) by lia.
  replace (blockNumber - 2 + 1) with (blockNumber - 1) by lia.
  reflexivity.
Qed.

End Run.

Lemma toNumber_fits (z : Z) : Z.abs z < 2 ^ 53 -> toNumber z = Ok (ofZ z).
Proof.
  intros H. unfold toNumber. now destruct (Z.ltb_spec (Z.abs z) (2 ^ 53)); [|lia].
Qed.

(** * The claims *)

(** ** Statistics helpers *)



(** C3, as the code has it.  [quantile] sorts the caller's sequence in
    place: after the call the sequence holds the same elements in
    ascending order, and it is as it was before exactly when it was
    ascending already. *)
Theorem quantile_sorts_in_place :
  forall (samples : list Qc) (q : Qc),
    Permutation samples (fst (quantile samples q)) /\
    Sorted Qcle (fst (quantile samples q)) /\
    (fst (quantile samples q) = samples <-> Sorted Qcle samples).
Proof.
  intros samples q. rewrite quantile_fst. split; [apply asc_perm|].
  split; [apply Sorted_strongly, asc_sorted|]. split.
  - intros <-. apply Sorted_strongly, asc_sorted.
  - intros HS. apply asc_unique; [apply Permutation_refl|].
    now apply Sorted_strongly.
Qed.

(** C3, as stated, fails: [quantile([3,1,2], 0.5)] leaves [[1,2,3]] in the
    caller's array. *)
Lemma quantile_mutates_input :
  fst (quantile (map ofZ [3; 1; 2]) (Q2Qc (1 # 2))) <> map ofZ [3; 1; 2].
Proof.
  intros H. apply (f_equal (map (fun x : Qc => Qnum x))) in H.
  vm_compute in H. discriminate H.
Qed.

(** C4, as the code has it.  On the empty sequence [mean] divides 0 by 0
    without a guard and returns NaN, a number; [quantile] returns
    [undefined] for every [q] and leaves the array empty.  Neither
    throws. *)
Theorem empty_input_behaviour :
  sum [] = Fin (ofZ 0) /\
  mean [] = round (div (Fin (ofZ 0)) (Fin (ofZ 0))) /\
  mean [] = NaN /\
  forall q : Qc, quantile [] q = ([], Undefined).
Proof.
  repeat split. apply quantile_empty.
Qed.

(** C4, as stated, fails: the divisor of the one division [mean([])]
    performs is the length 0, no guard precedes it, and what comes back is
    neither an error nor a sentinel that could be told from a number: it
    is the number NaN, which a sum with a base fee turns into NaN again. *)
Lemma mean_empty_is_silent_NaN :
  ofNat (length (@nil val)) = ofZ 0 /\
  mean [] = round (div (sum []) (Fin (ofNat (length (@nil val))))) /\
  mean [] = NaN /\
  typeof (Num (mean [])) = TNumber /\
  add (Fin (ofZ 13969109554)) (mean []) = NaN.
Proof. repeat split. Qed.

(** C6.  For a non-empty sequence [quantile(samples, 0)] is its minimum
    and [quantile(samples, 1)] its maximum, and [quantile([x], q) = x] for
    every [q] between 0 and 1. *)
Theorem quantile_extremes :
  (forall samples : list Qc,
      samples <> [] ->
      exists m, snd (quantile samples (ofZ 0)) = Num (Fin m) /\
                In m samples /\ forall x, In x samples -> (m <= x)%Qc) /\
  (forall samples : list Qc,
      samples <> [] ->
      exists m, snd (quantile samples (ofZ 1)) = Num (Fin m) /\
                In m samples /\ forall x, In x samples -> (x <= m)%Qc) /\
  (forall x q : Qc,
      (ofZ 0 <= q)%Qc -> (q <= ofZ 1)%Qc ->
      snd (quantile [x] q) = Num (Fin x)).
Proof.
  assert (L01 : (ofZ 0 <= ofZ 1)%Qc) by (apply ofZ_le; lia).
  split; [|split].
  - intros samples Hne.
    rewrite (quantile_type7 samples _ Hne (Qcle_refl _) L01). cbn [snd].
    pose proof (asc_perm samples) as HP. pose proof (asc_sorted samples) as HS.
    assert (Hn : (0 < length (asc samples))%nat).
    { rewrite asc_length. destruct samples; [congruence | simpl; lia]. }
    set (s := asc samples) in *.
    exists (nth 0 s (ofZ 0)). split; [|split].
    + f_equal. f_equal. unfold type7, interpolate.
      replace ((ofNat (length s) - ofZ 1) * ofZ 0)%Qc with (ofZ 0)
        by (symmetry; apply Qcmult_0_r).
      change (Qfloor (ofZ 0)) with 0. change (Z.to_nat 0) with 0%nat.
      destruct (0 + 1 <? Z.of_nat (length s)); [|reflexivity].
      change (ofZ 0) with (Q2Qc 0). ring.
    + eapply Permutation_in; [symmetry; exact HP|]. now apply nth_In.
    + intros x Hx. apply (Permutation_in _ HP) in Hx.
      destruct (In_nth _ _ (ofZ 0) Hx) as (i & Hi & <-).
      apply sorted_nth_le; [exact HS | lia].
  - intros samples Hne.
    rewrite (quantile_type7 samples _ Hne L01 (Qcle_refl _)). cbn [snd].
    pose proof (asc_perm samples) as HP. pose proof (asc_sorted samples) as HS.
    assert (Hn : (0 < length (asc samples))%nat).
    { rewrite asc_length. destruct samples; [congruence | simpl; lia]. }
    set (s := asc samples) in *.
    exists (nth (length s - 1) s (ofZ 0)). split; [|split].
    + f_equal. f_equal. unfold type7, interpolate.
      replace ((ofNat (length s) - ofZ 1) * ofZ 1)%Qc
        with (ofZ (Z.of_nat (length s) - 1)).
      2:{ unfold ofNat. rewrite ofZ_minus. symmetry. apply Qcmult_1_r. }
      rewrite this_ofZ, Qfloor_Z.
      destruct (Z.ltb_spec (Z.of_nat (length s) - 1 + 1) (Z.of_nat (length s)));
        [lia|].
      f_equal. lia.
    + eapply Permutation_in; [symmetry; exact HP|]. apply nth_In. lia.
    + intros x Hx. apply (Permutation_in _ HP) in Hx.
      destruct (In_nth _ _ (ofZ 0) Hx) as (i & Hi & <-).
      apply sorted_nth_le; [exact HS | lia].
  - intros x q H0 H1.
    rewrite (quantile_type7 [x] q) by (assumption || discriminate).
    cbn [snd]. change (asc [x]) with [x].
    assert (E : ((ofNat (length [x]) - ofZ 1) * q)%Qc = ofZ 0).
    { cbn [length]. unfold ofNat. rewrite ofZ_minus. apply Qcmult_0_l. }
    unfold type7. rewrite E. reflexivity.
Qed.

Lemma quantile_extremes_witness :
  (exists m, snd (quantile (map ofZ [4; 2; 9]) (ofZ 0)) = Num (Fin m) /\
             In m (map ofZ [4; 2; 9]) /\
             forall x, In x (map ofZ [4; 2; 9]) -> (m <= x)%Qc) /\
  (exists m, snd (quantile (map ofZ [4; 2; 9]) (ofZ 1)) = Num (Fin m) /\
             In m (map ofZ [4; 2; 9]) /\
             forall x, In x (map ofZ [4; 2; 9]) -> (x <= m)%Qc) /\
  snd (quantile [ofZ 7] (Q2Qc (3 # 10))) = Num (Fin (ofZ 7)).
Proof.
  split; [|split].
  - apply (proj1 quantile_extremes). discriminate.
  - apply (proj1 (proj2 quantile_extremes)). discriminate.
  - apply (proj2 (proj2 quantile_extremes));
      apply leb_le; vm_compute; reflexivity.
Defined.





(** ** The estimator *)

(** C5.  For a non-empty sequence the 0.3, 0.6 and 0.9 quantiles are
    non-decreasing, hence so are the three priority-fee tiers of the
    summary [dataFormatter] builds from a block with at least one type-2
    transaction. *)
Theorem tiers_nondecreasing :
  (forall samples : list Qc,
      samples <> [] ->
      exists a b c,
        snd (quantile samples (Q2Qc (3 # 10))) = Num (Fin a) /\
        snd (quantile samples (Q2Qc (6 # 10))) = Num (Fin b) /\
        snd (quantile samples (Q2Qc (9 # 10))) = Num (Fin c) /\
        (a <= b)%Qc /\ (b <= c)%Qc) /\
  (forall (blk : Block.t) (f : Fee.t),
      filter (fun tx => Tx.type tx =? 2) (Block.transactions blk) <> [] ->
      dataFormatter blk = Ok f ->
      exists a b c,
        Fee.maxPriorityFeePerGas f = [Num (Fin a); Num (Fin b); Num (Fin c)] /\
        (a <= b)%Qc /\ (b <= c)%Qc).
Proof.
  split.
  - exact quantile_tiers_ordered.
  - intros blk f Hne Hd. exact (formatted_nondecreasing blk f Hd Hne).
Qed.

Lemma tiers_nondecreasing_witness :
  (exists a b c,
      snd (quantile (map ofZ [5; 1; 3]) (Q2Qc (3 # 10))) = Num (Fin a) /\
      snd (quantile (map ofZ [5; 1; 3]) (Q2Qc (6 # 10))) = Num (Fin b) /\
      snd (quantile (map ofZ [5; 1; 3]) (Q2Qc (9 # 10))) = Num (Fin c) /\
      (a <= b)%Qc /\ (b <= c)%Qc) /\
  (exists a b c,
      Fee.maxPriorityFeePerGas (formatted (fixture_block 7))
        = [Num (Fin a); Num (Fin b); Num (Fin c)] /\
      (a <= b)%Qc /\ (b <= c)%Qc).
Proof.
  split.
  - apply (proj1 tiers_nondecreasing). discriminate.
  - apply (proj2 tiers_nondecreasing (fixture_block 7)).
    + discriminate.
    + vm_compute. reflexivity.
Defined.



(** C9.  When none of the four sampled blocks has a type-2 transaction
    the run does not fail: [dataFormatter] returns for each block a
    summary whose tiers are all [undefined], the outcome of [quantile] on
    the empty sequence, and [gasEstimator] completes and prints the
    estimate whose three bids are NaN, the outcome of [mean] on those
    tiers.  The run is a function of what the provider serves. *)
Theorem legacy_window_completes :
  forall (p : provider) (N : Z) (blk : Z -> Block.t) (pending : Block.t),
    getBlockNumber p = Some N ->
    (forall j, N - 4 <= j < N ->
               getBlockWithTransactions p j = Some (blk j) /\
               filter (fun tx => Tx.type tx =? 2)
                 (Block.transactions (blk j)) = [] /\
               Z.abs (Block.baseFeePerGas (blk j)) < 2 ^ 53 /\
               Z.abs (Block.gasUsed (blk j)) < 2 ^ 53 /\
               Z.abs (Block.gasLimit (blk j)) < 2 ^ 53) ->
    getBlock_pending p = Some pending ->
    Z.abs (Block.baseFeePerGas pending) < 2 ^ 53 ->
    (forall j, N - 4 <= j < N ->
               exists f, dataFormatter (blk j) = Ok f /\
                         Fee.maxPriorityFeePerGas f
                           = [Undefined; Undefined; Undefined]) /\
    gasEstimator p =
      ([CallGetBlockNumber;
        CallGetBlockWithTransactions (N - 4);
        CallGetBlockWithTransactions (N - 3);
        CallGetBlockWithTransactions (N - 2);
        CallGetBlockWithTransactions (N - 1);
        CallGetBlockPending;
        ConsoleLog {| slow := NaN; average := NaN; fast := NaN |}],
       Ok tt).
Proof.
  intros p N blk pending HN Hs Hp Hb.
  set (fmt := fun j =>
         Fee.mk (Block.number (blk j)) (ofZ (Block.baseFeePerGas (blk j)))
           [Undefined; Undefined; Undefined]
           (div (Fin (ofZ (Block.gasUsed (blk j))))
                (Fin (ofZ (Block.gasLimit (blk j)))))).
  assert (Hd : forall j, N - 4 <= j < N -> dataFormatter (blk j) = Ok (fmt j)).
  { intros j Hj. destruct (Hs j Hj) as (_ & Hf & H1 & H2 & H3).
    unfold dataFormatter. rewrite Hf. cbn [map_toNumber rbind].
    rewrite !quantile_empty.
    rewrite !toNumber_fits by assumption. reflexivity. }
  split.
  - intros j Hj. exists (fmt j). split; [now apply Hd | reflexivity].
  - rewrite (gasEstimator_run p N blk fmt pending
               (ofZ (Block.baseFeePerGas pending)) HN).
    + reflexivity.
    + intros j Hj. split; [apply (Hs j Hj) | now apply Hd].
    + exact Hp.
    + now apply toNumber_fits.
Qed.

Lemma legacy_window_completes_witness :
  (forall j, 100 - 4 <= j < 100 ->
             exists f, dataFormatter (legacy_block j) = Ok f /\
                       Fee.maxPriorityFeePerGas f
                         = [Undefined; Undefined; Undefined]) /\
  gasEstimator legacy_provider =
    ([CallGetBlockNumber;
      CallGetBlockWithTransactions (100 - 4);
      CallGetBlockWithTransactions (100 - 3);
      CallGetBlockWithTransactions (100 - 2);
      CallGetBlockWithTransactions (100 - 1);
      CallGetBlockPending;
      ConsoleLog {| slow := NaN; average := NaN; fast := NaN |}],
     Ok tt).
Proof.
  apply (legacy_window_completes legacy_provider 100 legacy_block
           fixture_pending).
  - reflexivity.
  - intros j _. repeat split; reflexivity.
  - reflexivity.
  - reflexivity.
Defined.

(** C10.  When each of the four sampled blocks has at least one type-2
    transaction, the estimate that a completed run prints is ordered:
    [slow <= average <= fast]. *)
Theorem estimate_ordered :
  forall (p : provider) (N : Z) (blk : Z -> Block.t),
    getBlockNumber p = Some N ->
    (forall j, N - 4 <= j < N ->
               getBlockWithTransactions p j = Some (blk j) /\
               filter (fun tx => Tx.type tx =? 2)
                 (Block.transactions (blk j)) <> []) ->
    snd (gasEstimator p) = Ok tt ->
    exists s a f : Qc,
      fst (gasEstimator p) =
        [CallGetBlockNumber;
         CallGetBlockWithTransactions (N - 4);
         CallGetBlockWithTransactions (N - 3);
         CallGetBlockWithTransactions (N - 2);
         CallGetBlockWithTransactions (N - 1);
         CallGetBlockPending;
         ConsoleLog {| slow := Fin s; average := Fin a; fast := Fin f |}] /\
      (s <= a)%Qc /\ (a <= f)%Qc.
Proof.
  intros p N blk HN Hs Hok.
  unfold gasEstimator, gasEstimator_fuel in Hok.
  unfold bind at 1 in Hok. unfold await at 1 in Hok. rewrite HN in Hok.
  unfold bind at 1 in Hok.
  destruct (fetchBlocks_fuel 4 p (N - 4) N [] ([] ++ [CallGetBlockNumber]))
    as [tr1 [out|e]] eqn:Hrun; [|discriminate Hok].
  destruct (fetchBlocks_inv p blk 4 4 (N - 4) N []
              ([] ++ [CallGetBlockNumber]) tr1 out) as (fs & -> & -> & HF);
    [lia | intros j Hj; apply (Hs j Hj) | exact Hrun |].
  unfold bind at 1 in Hok. unfold await at 1 in Hok.
  destruct (getBlock_pending p) as [pending|] eqn:Hp; [|discriminate Hok].
  unfold bind at 1 in Hok. unfold lift in Hok.
  destruct (toNumber (Block.baseFeePerGas pending)) as [base|] eqn:Hb;
    [|discriminate Hok].
  assert (Hord : Forall nondecreasing_tiers fs).
  { clear Hrun Hok. apply Forall_forall. intros f Hf.
    destruct (Forall2_In_r _ _ _ HF f Hf) as (j & Hj & Hd).
    eapply formatted_nondecreasing; [exact Hd|].
    apply Hs. apply range_In in Hj. lia. }
  assert (Hne : fs <> []).
  { apply Forall2_length in HF. destruct fs; [discriminate HF | discriminate]. }
  destruct (estimation_ordered fs base Hne Hord) as (s & a & f & He & Hsa & Haf).
  exists s, a, f. split; [|split; assumption].
  unfold gasEstimator, gasEstimator_fuel.
  unfold bind at 1. unfold await at 1. rewrite HN.
  unfold bind at 1. rewrite Hrun.
  unfold bind at 1. unfold await at 1. rewrite Hp.
  unfold bind at 1. unfold lift. rewrite Hb.
  rewrite <- He. unfold emit, estimation, tier. cbn [fst app range map].
  replace (N - 4 + 1) with (N - 3) by lia.
  replace (N - 3 + 1) with (N - 2) by lia.
  replace (N - 2 + 1) with (N - 1) by lia.
  reflexivity.
Qed.

Lemma estimate_ordered_witness :
  exists s a f : Qc,
    fst (gasEstimator fixture_provider) =
      [CallGetBlockNumber;
       CallGetBlockWithTransactions (100 - 4);
       CallGetBlockWithTransactions (100 - 3);
       CallGetBlockWithTransactions (100 - 2);
       CallGetBlockWithTransactions (100 - 1);
       CallGetBlockPending;
       ConsoleLog {| slow := Fin s; average := Fin a; fast := Fin f |}] /\
    (s <= a)%Qc /\ (a <= f)%Qc.
Proof.
  apply (estimate_ordered fixture_provider 100 fixture_block).
  - reflexivity.
  - intros j _. split; [reflexivity | discriminate].
  - vm_compute. reflexivity.
Defined.

(** * Further properties of the code *)

(** ** More on rationals and [Math.floor] *)

Section FloorFacts.





End FloorFacts.

(** ** [quantile] on and off its contract *)

Section QuantileCases.

Lemma elem_numbers_neg (s : list Qc) (k : Z) :
  k < 0 -> elem (numbers s) (Fin (ofZ k)) = Undefined.
Proof.
  intros Hk. unfold elem. rewrite this_ofZ. cbn [inject_Z Qden Qnum].
  destruct (Z.leb_spec 0 k); [lia|]. now rewrite andb_false_r.
Qed.

(** What [quantile] returns, by the place of [base] and [base + 1] among
    the indices of the array. *)
Lemma quantile_cases (arr : list Qc) (q : Qc) :
  quantile arr q =
    (asc arr,
     let n := Z.of_nat (length (asc arr)) in
     let pos := ((ofNat (length (asc arr)) - ofZ 1) * q)%Qc in
     let base := Qfloor pos in
     if (0 <=? base + 1) && (base + 1 <? n) then
       if 0 <=? base then Num (Fin (interpolate (asc arr) pos)) else Num NaN
     else if (0 <=? base) && (base <? n) then
       Num (Fin (nth (Z.to_nat base) (asc arr) (ofZ 0)))
     else Undefined).
Proof.
  unfold quantile, interpolate. set (s := asc arr).
  cbn [sub mul floor add]. cbv zeta.
  set (pos := ((ofNat (length s) - ofZ 1) * q)%Qc).
  set (base := Qfloor pos). rewrite ofZ_plus.
  destruct (Z.leb_spec 0 (base + 1)) as [H1|H1]; cbn [andb].
  - rewrite (elem_numbers s (base + 1) H1).
    destruct (Z.ltb_spec (base + 1) (Z.of_nat (length s))) as [H2|H2];
      cbn [defined].
    + destruct (Z.leb_spec 0 base) as [H0|H0].
      * rewrite (elem_numbers s base H0).
        destruct (Z.ltb_spec base (Z.of_nat (length s))); [|lia]. reflexivity.
      * rewrite (elem_numbers_neg s base H0). reflexivity.
    + destruct (Z.leb_spec 0 base) as [H0|H0]; cbn [andb].
      * now rewrite (elem_numbers s base H0).
      * now rewrite (elem_numbers_neg s base H0).
  - rewrite (elem_numbers_neg s (base + 1)) by lia. cbn [defined].
    destruct (Z.leb_spec 0 base) as [H0|H0]; [lia|]. cbn [andb].
    now rewrite (elem_numbers_neg s base H0).
Qed.

Lemma asc_nonempty (l : list Qc) : l <> [] -> (0 < length (asc l))%nat.
Proof.
  intros H. rewrite asc_length. destruct l; [congruence | simpl; lia].
Qed.


(** On the contract the value lies between any two bounds of the samples. *)
Lemma type7_between (l : list Qc) (q lo hi : Qc) :
  l <> [] -> (ofZ 0 <= q)%Qc -> (q <= ofZ 1)%Qc ->
  (forall x, In x l -> (lo <= x)%Qc /\ (x <= hi)%Qc) ->
  (lo <= type7 (asc l) q)%Qc /\ (type7 (asc l) q <= hi)%Qc.
Proof.
  intros Hne H0 H1 Hb. pose proof (asc_nonempty l Hne) as Hn.
  assert (Hin : forall i, (i < length (asc l))%nat ->
                          (lo <= nth i (asc l) (ofZ 0))%Qc /\
                          (nth i (asc l) (ofZ 0) <= hi)%Qc).
  { intros i Hi. apply Hb. eapply Permutation_in; [symmetry; apply asc_perm|].
    now apply nth_In. }
  unfold type7.
  destruct (rank_bounds (length (asc l)) q Hn H0 H1) as [Hp0 Hp1].
  set (pos := ((ofNat (length (asc l)) - ofZ 1) * q)%Qc) in *.
  destruct (floor_bounds pos _ _ Hp0 Hp1) as [Hb0 Hb1].
  destruct (interpolate_bounds (asc l) (asc_sorted l) pos Hp0 Hp1) as [Hlow Hup].
  split.
  - eapply Qcle_trans; [|exact Hlow]. apply Hin. lia.
  - destruct (Z.ltb_spec (Qfloor pos + 1) (Z.of_nat (length (asc l)))) as [Hlt|Hge].
    + eapply Qcle_trans; [apply Hup; exact Hlt|]. apply Hin. lia.
    + unfold interpolate.
      destruct (Z.ltb_spec (Qfloor pos + 1) (Z.of_nat (length (asc l)))); [lia|].
      apply Hin. lia.
Qed.

Lemma asc_permutation (l l' : list Qc) : Permutation l l' -> asc l = asc l'.
Proof.
  intros HP. apply asc_unique; [|apply asc_sorted].
  eapply perm_trans; [exact HP | apply asc_perm].
Qed.

End QuantileCases.

(** X1.  [quantile] is monotone in [q]: for a non-empty sequence and
    [0 <= q1 <= q2 <= 1], the value at [q1] is at most the value at [q2]. *)
Theorem quantile_monotone :
  forall (samples : list Qc) (q1 q2 : Qc),
    samples <> [] ->
    (ofZ 0 <= q1)%Qc -> (q1 <= q2)%Qc -> (q2 <= ofZ 1)%Qc ->
    exists a b,
      snd (quantile samples q1) = Num (Fin a) /\
      snd (quantile samples q2) = Num (Fin b) /\ (a <= b)%Qc.
Proof.
  intros samples q1 q2 Hne H0 H12 H2.
  rewrite (quantile_type7 samples q1 Hne H0 (Qcle_trans _ _ _ H12 H2)).
  rewrite (quantile_type7 samples q2 Hne (Qcle_trans _ _ _ H0 H12) H2).
  eexists _, _. split; [reflexivity|]. split; [reflexivity|].
  apply type7_mono; try assumption; [apply asc_sorted|].
  intros E. apply Hne, Permutation_nil. rewrite <- E. symmetry. apply asc_perm.
Qed.

Lemma quantile_monotone_witness :
  exists a b,
    snd (quantile (map ofZ [8; 2; 5; 3]) (Q2Qc (1 # 4))) = Num (Fin a) /\
    snd (quantile (map ofZ [8; 2; 5; 3]) (Q2Qc (4 # 5))) = Num (Fin b) /\
    (a <= b)%Qc.
Proof.
  apply quantile_monotone;
    [discriminate | apply leb_le; vm_compute; reflexivity ..].
Defined.

(** X2.  For a non-empty sequence and [q] between 0 and 1, [quantile]
    returns a finite number that lies between any lower and upper bound of
    the samples; it never leaves the range of the data. *)
Theorem quantile_within_bounds :
  forall (samples : list Qc) (q lo hi : Qc),
    samples <> [] ->
    (ofZ 0 <= q)%Qc -> (q <= ofZ 1)%Qc ->
    (forall x, In x samples -> (lo <= x)%Qc /\ (x <= hi)%Qc) ->
    exists v, snd (quantile samples q) = Num (Fin v) /\
              (lo <= v)%Qc /\ (v <= hi)%Qc.
Proof.
  intros samples q lo hi Hne H0 H1 Hb.
  rewrite (quantile_type7 samples q Hne H0 H1).
  eexists. split; [reflexivity|]. now apply type7_between.
Qed.

Lemma quantile_within_bounds_witness :
  exists v, snd (quantile (map ofZ [8; 2; 5; 3]) (Q2Qc (1 # 3))) = Num (Fin v) /\
            (ofZ 2 <= v)%Qc /\ (v <= ofZ 8)%Qc.
Proof.
  apply quantile_within_bounds.
  - discriminate.
  - apply leb_le. vm_compute. reflexivity.
  - apply leb_le. vm_compute. reflexivity.
  - intros x Hx. simpl in Hx.
    destruct Hx as [<-|[<-|[<-|[<-|[]]]]];
      split; apply leb_le; vm_compute; reflexivity.
Defined.

(** X3.  [quantile] does not depend on the order of its input: on two
    arrangements of the same samples it returns the same value and leaves
    the same array, for every [q]. *)
Theorem quantile_permutation :
  forall (l l' : list Qc) (q : Qc),
    Permutation l l' -> quantile l q = quantile l' q.
Proof.
  intros l l' q HP. unfold quantile. now rewrite (asc_permutation l l' HP).
Qed.

Lemma quantile_permutation_witness :
  quantile (map ofZ [8; 2; 5]) (Q2Qc (1 # 3))
  = quantile (map ofZ [2; 8; 5]) (Q2Qc (1 # 3)).
Proof. apply quantile_permutation. apply perm_swap. Defined.

(** X4.  A second call on the array a first call has sorted leaves the
    array as it is and returns what it would have returned on the original
    array: the order of successive [quantile] calls on one array does not
    matter. *)
Theorem quantile_after_quantile :
  forall (arr : list Qc) (q q' : Qc),
    quantile (fst (quantile arr q)) q'
    = (fst (quantile arr q), snd (quantile arr q')).
Proof.
  intros arr q q'. rewrite quantile_fst, quantile_asc.
  rewrite <- (quantile_fst arr q'). now destruct (quantile arr q').
Qed.



(** X6.  On a one-element sequence [quantile] returns that element for
    every [q], also outside [0, 1], and leaves the array as it is. *)
Theorem quantile_singleton :
  forall x q : Qc, quantile [x] q = ([x], Num (Fin x)).
Proof.
  intros x q. rewrite quantile_cases. change (asc [x]) with [x].
  cbn [length]. cbv zeta.
  assert (E : ((ofNat 1 - ofZ 1) * q)%Qc = ofZ 0).
  { unfold ofNat. rewrite ofZ_minus. apply Qcmult_0_l. }
  rewrite E. reflexivity.
Qed.

(** X7.  [asc] gives two arrays the same contents exactly when they hold
    the same elements, however arranged; in particular sorting twice is
    sorting once. *)
Theorem asc_canonical :
  (forall l l' : list Qc, asc l = asc l' <-> Permutation l l') /\
  (forall l : list Qc, asc (asc l) = asc l).
Proof.
  split.
  - intros l l'. split.
    + intros E. eapply perm_trans; [apply asc_perm|]. rewrite E.
      symmetry. apply asc_perm.
    + apply asc_permutation.
  - apply asc_idem.
Qed.

(** ** More on [sum] and [mean] *)

Section SumMeanFacts.

Lemma add_NaN_l (a : num) : add NaN a = NaN.
Proof. now destruct a. Qed.

Lemma add_NaN_r (a : num) : add a NaN = NaN.
Proof. now destruct a. Qed.

Lemma add_0_r (a : num) : add a (Fin (ofZ 0)) = a.
Proof. rewrite add_comm. apply add_0_l. Qed.

Lemma fold_add_shift (l : list val) :
  forall a b, fold_left (fun a b => add a (ToNumber b)) l (add a b) =
              add a (fold_left (fun a b => add a (ToNumber b)) l b).
Proof.
  induction l as [|x t IH]; intros a b; cbn [fold_left]; [reflexivity|].
  rewrite add_assoc. apply IH.
Qed.

(** [reduce] started from [a] adds [a] to the sum. *)
Lemma fold_add_acc (l : list val) :
  forall a, fold_left (fun a b => add a (ToNumber b)) l a = add a (sum l).
Proof.
  intros a. unfold sum. rewrite <- fold_add_shift. now rewrite add_0_r.
Qed.

Lemma sum_cons (x : val) (l : list val) :
  sum (x :: l) = add (ToNumber x) (sum l).
Proof.
  unfold sum at 1. cbn [fold_left]. now rewrite add_0_l, fold_add_acc.
Qed.

Lemma sum_append (l l' : list val) : sum (l ++ l') = add (sum l) (sum l').
Proof.
  unfold sum at 1. rewrite fold_left_app. fold (sum l). apply fold_add_acc.
Qed.

Lemma sum_poisoned (arr : list val) (x : val) :
  In x arr -> ToNumber x = NaN -> sum arr = NaN.
Proof.
  intros Hin Hx. destruct (in_split _ _ Hin) as (l1 & l2 & ->).
  now rewrite sum_append, sum_cons, Hx, add_NaN_l, add_NaN_r.
Qed.

Lemma this_inv (x : Qc) : (this (/ x)%Qc == / this x)%Q.
Proof. apply Qred_correct. Qed.





End SumMeanFacts.


(** X9.  One [undefined] or NaN element is enough to make [sum] and
    [mean] NaN, whatever the other elements are. *)
Theorem sum_mean_poisoned :
  forall arr : list val,
    In Undefined arr \/ In (Num NaN) arr ->
    sum arr = NaN /\ mean arr = NaN.
Proof.
  intros arr H.
  assert (Hs : sum arr = NaN).
  { destruct H as [H|H]; eapply sum_poisoned; try exact H; reflexivity. }
  split; [exact Hs|]. unfold mean. now rewrite Hs.
Qed.

Lemma sum_mean_poisoned_witness :
  sum [Num (Fin (ofZ 3)); Undefined; Num (Fin (ofZ 4))] = NaN /\
  mean [Num (Fin (ofZ 3)); Undefined; Num (Fin (ofZ 4))] = NaN.
Proof. apply sum_mean_poisoned. left. simpl. tauto. Defined.

(** X10.  [mean] is monotone: when each element of a non-empty sequence
    of numbers is at most the element of the same index of a second
    sequence, its mean is at most the mean of the second. *)
Theorem mean_monotone :
  forall la lb : list Qc,
    la <> [] -> Forall2 Qcle la lb ->
    exists x y, mean (numbers la) = Fin x /\ mean (numbers lb) = Fin y /\
                (x <= y)%Qc.
Proof. exact mean_numbers_le. Qed.

Lemma mean_monotone_witness :
  exists x y, mean (numbers (map ofZ [1; 5])) = Fin x /\
              mean (numbers (map ofZ [2; 5])) = Fin y /\ (x <= y)%Qc.
Proof.
  apply mean_monotone; [discriminate|].
  repeat constructor; apply leb_le; vm_compute; reflexivity.
Defined.





(** ** More on [dataFormatter] *)

Section DataFormatterFacts.

Lemma Ok_inj {A} (a b : A) : Ok a = Ok b -> a = b.
Proof. intros H. now inversion H. Qed.

Lemma toNumber_fits_b (z : Z) :
  toNumber z = if fits z then Ok (ofZ z) else Err NumericFault.
Proof. reflexivity. Qed.


Lemma map_toNumber_closed (txs : list Tx.t) :
  map_toNumber txs =
    if forallb fits (map Tx.maxPriorityFeePerGas txs)
    then Ok (map ofZ (map Tx.maxPriorityFeePerGas txs))
    else Err NumericFault.
Proof.
  induction txs as [|tx rest IH]; [reflexivity|].
  cbn [map_toNumber map forallb]. rewrite toNumber_fits_b, IH.
  destruct (fits (Tx.maxPriorityFeePerGas tx)); [|reflexivity].
  cbn [rbind andb].
  destruct (forallb fits (map Tx.maxPriorityFeePerGas rest)); reflexivity.
Qed.

Lemma forallb_on_map {A B} (f : B -> bool) (g : A -> B) (l : list A) :
  forallb (fun x => f (g x)) l = forallb f (map g l).
Proof. induction l as [|x t IH]; [reflexivity|]. simpl. now rewrite IH. Qed.

Lemma forallb_perm {A} (f : A -> bool) (l l' : list A) :
  Permutation l l' -> forallb f l = forallb f l'.
Proof.
  induction 1 as [| x l l' _ IH | x y l | l l' l'' _ IH1 _ IH2]; simpl.
  - reflexivity.
  - now rewrite IH.
  - now destruct (f x), (f y).
  - now rewrite IH1.
Qed.

(** The fees [dataFormatter] hands to [quantile]. *)
Let fees_of (blk : Block.t) : list Qc :=
  map ofZ (map Tx.maxPriorityFeePerGas
             (filter (fun tx => Tx.type tx =? 2) (Block.transactions blk))).

Lemma dataFormatter_closed (blk : Block.t) :
  dataFormatter blk =
    if convertible blk then
      Ok (Fee.mk (Block.number blk) (ofZ (Block.baseFeePerGas blk))
            [snd (quantile (fees_of blk) (Q2Qc (3 # 10)));
             snd (quantile (fees_of blk) (Q2Qc (6 # 10)));
             snd (quantile (fees_of blk) (Q2Qc (9 # 10)))]
            (div (Fin (ofZ (Block.gasUsed blk)))
                 (Fin (ofZ (Block.gasLimit blk)))))
    else Err NumericFault.
Proof.
  unfold dataFormatter, convertible, fees_of.
  rewrite map_toNumber_closed, <- forallb_on_map.
  destruct (forallb _ _); [|reflexivity]. cbn [rbind andb].
  set (fees := map ofZ _).
  destruct (quantile fees (Q2Qc (3 # 10))) as [arr1 v1] eqn:E1.
  destruct (quantile arr1 (Q2Qc (6 # 10))) as [arr2 v2] eqn:E2.
  destruct (quantile arr2 (Q2Qc (9 # 10))) as [arr3 v3] eqn:E3.
  assert (A1 : arr1 = asc fees)
    by (rewrite <- (quantile_fst fees (Q2Qc (3 # 10))), E1; reflexivity).
  assert (A2 : arr2 = asc arr1)
    by (rewrite <- (quantile_fst arr1 (Q2Qc (6 # 10))), E2; reflexivity).
  subst arr2 arr1. rewrite asc_idem in E3. rewrite quantile_asc in E2, E3.
  rewrite E2, E3. cbn [snd].
  rewrite !toNumber_fits_b.
  destruct (fits (Block.baseFeePerGas blk)); [|reflexivity].
  destruct (fits (Block.gasUsed blk)); [|reflexivity].
  destruct (fits (Block.gasLimit blk)); reflexivity.
Qed.

Lemma eqb0_ofZ (z : Z) : eqb0 (ofZ z) = (z =? 0).
Proof.
  destruct (Z.eqb_spec z 0) as [->|Hz]; [reflexivity|].
  destruct (eqb0 (ofZ z)) eqn:E; [|reflexivity].
  apply eqb0_true, ofZ_inj in E. contradiction.
Qed.

Lemma ltb0_ofZ (z : Z) : ltb0 (ofZ z) = (z <? 0).
Proof.
  unfold ltb0. destruct (Z.ltb_spec z 0) as [Hz|Hz].
  - destruct (Qle_bool 0 (ofZ z)) eqn:E; [|reflexivity].
    apply Qle_bool_iff in E. rewrite this_ofZ in E.
    change 0%Q with (inject_Z 0) in E. rewrite <- Zle_Qle in E. lia.
  - assert (E : Qle_bool 0 (ofZ z) = true); [|now rewrite E].
    apply Qle_bool_iff. rewrite this_ofZ.
    change 0%Q with (inject_Z 0). rewrite <- Zle_Qle. exact Hz.
Qed.

Lemma ratio_unit (u l : Z) :
  0 <= u <= l -> 0 < l ->
  exists r, div (Fin (ofZ u)) (Fin (ofZ l)) = Fin r /\
            (ofZ 0 <= r)%Qc /\ (r <= ofZ 1)%Qc.
Proof.
  intros Hu Hl. cbn [div]. rewrite eqb0_ofZ.
  destruct (Z.eqb_spec l 0); [lia|].
  eexists. split; [reflexivity|].
  assert (Hl' : (0 < this (ofZ l))%Q).
  { rewrite this_ofZ. change 0%Q with (inject_Z 0). rewrite <- Zlt_Qlt. exact Hl. }
  assert (H0 : (0 <= this (ofZ u))%Q).
  { rewrite this_ofZ. change 0%Q with (inject_Z 0). rewrite <- Zle_Qle. lia. }
  assert (H1 : (this (ofZ u) <= this (ofZ l))%Q).
  { rewrite !this_ofZ, <- Zle_Qle. lia. }
  unfold Qcdiv, Qcle. rewrite this_mult, this_inv, !(this_ofZ 0), (this_ofZ 1).
  change (inject_Z 0) with 0%Q. change (inject_Z 1) with 1%Q. split.
  - apply Qle_shift_div_l; [exact Hl'|]. now rewrite Qmult_0_l.
  - apply Qle_shift_div_r; [exact Hl'|]. now rewrite Qmult_1_l.
Qed.

End DataFormatterFacts.

Section DataFormatterBounds.

Lemma formatted_bounded (blk : Block.t) (f : Fee.t) (lo hi : Z) :
  dataFormatter blk = Ok f ->
  filter (fun tx => Tx.type tx =? 2) (Block.transactions blk) <> [] ->
  (forall tx, In tx (Block.transactions blk) -> Tx.type tx = 2 ->
              lo <= Tx.maxPriorityFeePerGas tx <= hi) ->
  exists a b c,
    Fee.maxPriorityFeePerGas f = [Num (Fin a); Num (Fin b); Num (Fin c)] /\
    (ofZ lo <= a)%Qc /\ (a <= b)%Qc /\ (b <= c)%Qc /\ (c <= ofZ hi)%Qc.
Proof.
  intros Hd Hne Hb. rewrite dataFormatter_closed in Hd.
  destruct (convertible blk); [|discriminate].
  apply Ok_inj in Hd. subst f.
  cbn [Fee.maxPriorityFeePerGas].
  set (txs := filter (fun tx => Tx.type tx =? 2) (Block.transactions blk)) in *.
  set (fees := map ofZ (map Tx.maxPriorityFeePerGas txs)).
  assert (Hfees : fees <> []).
  { unfold fees. destruct txs; [congruence | discriminate]. }
  assert (Hin : forall x, In x fees -> (ofZ lo <= x)%Qc /\ (x <= ofZ hi)%Qc).
  { intros x Hx. unfold fees in Hx. rewrite map_map in Hx.
    apply in_map_iff in Hx. destruct Hx as (tx & <- & Htx).
    apply filter_In in Htx. destruct Htx as [Htx Ht]. apply Z.eqb_eq in Ht.
    destruct (Hb tx Htx Ht). split; apply ofZ_le; assumption. }
  destruct tier_constants as (H0 & H1 & H2 & H3).
  pose proof (Qcle_trans _ _ _ H0 H1) as L6.
  pose proof (Qcle_trans _ _ _ L6 H2) as L9.
  pose proof (Qcle_trans _ _ _ H2 H3) as U6.
  pose proof (Qcle_trans _ _ _ H1 U6) as U3.
  rewrite (quantile_type7 fees _ Hfees H0 U3).
  rewrite (quantile_type7 fees _ Hfees L6 U6).
  rewrite (quantile_type7 fees _ Hfees L9 H3).
  assert (Hs : asc fees <> []).
  { intros E. apply Hfees, Permutation_nil. rewrite <- E. symmetry. apply asc_perm. }
  eexists _, _, _. cbn [snd]. split; [reflexivity|].
  split; [apply (type7_between fees _ _ _ Hfees H0 U3 Hin)|].
  split; [apply type7_mono; try assumption; apply asc_sorted|].
  split; [apply type7_mono; try assumption; apply asc_sorted|].
  apply (type7_between fees _ _ _ Hfees L9 H3 Hin).
Qed.

End DataFormatterBounds.


(** X14.  [dataFormatter] sees the transactions of a block only through
    the fees of its type-2 transactions, whatever their order: two blocks
    with the same header whose type-2 fees are a rearrangement of one
    another are formatted alike, transactions of other types and the
    order of the transactions making no difference. *)
Theorem dataFormatter_fee_multiset :
  forall b b' : Block.t,
    Block.number b = Block.number b' ->
    Block.baseFeePerGas b = Block.baseFeePerGas b' ->
    Block.gasUsed b = Block.gasUsed b' ->
    Block.gasLimit b = Block.gasLimit b' ->
    Permutation
      (map Tx.maxPriorityFeePerGas
         (filter (fun tx => Tx.type tx =? 2) (Block.transactions b)))
      (map Tx.maxPriorityFeePerGas
         (filter (fun tx => Tx.type tx =? 2) (Block.transactions b'))) ->
    dataFormatter b = dataFormatter b'.
Proof.
  intros b b' Hn Hb Hu Hl HP.
  rewrite !dataFormatter_closed. unfold convertible.
  rewrite !(forallb_on_map fits Tx.maxPriorityFeePerGas).
  rewrite (forallb_perm fits _ _ HP), Hn, Hb, Hu, Hl.
  assert (HQ : forall q,
             quantile (map ofZ (map Tx.maxPriorityFeePerGas
                        (filter (fun tx => Tx.type tx =? 2)
                           (Block.transactions b)))) q
             = quantile (map ofZ (map Tx.maxPriorityFeePerGas
                          (filter (fun tx => Tx.type tx =? 2)
                             (Block.transactions b')))) q).
  { intros q. unfold quantile.
    now rewrite (asc_permutation _ _ (Permutation_map ofZ HP)). }
  now rewrite !HQ.
Qed.

Lemma dataFormatter_fee_multiset_witness :
  dataFormatter
    (Block.mk 7 100 50 200 [Tx.mk 2 30; Tx.mk 0 9; Tx.mk 2 10; Tx.mk 2 20])
  = dataFormatter
      (Block.mk 7 100 50 200 [Tx.mk 2 10; Tx.mk 2 30; Tx.mk 1 5; Tx.mk 2 20]).
Proof.
  apply dataFormatter_fee_multiset; try reflexivity.
  simpl. apply perm_swap.
Defined.

(** X15.  The ratio of a summary is a number between 0 and 1 when
    [0 <= gasUsed <= gasLimit] and the limit is positive.  A gas limit of
    0 is not an error: the summary is returned with a ratio that is NaN
    when the gas used is 0 too and an infinity otherwise. *)
Theorem gasUsedRatio_range :
  forall (blk : Block.t) (f : Fee.t),
    dataFormatter blk = Ok f ->
    (0 <= Block.gasUsed blk <= Block.gasLimit blk ->
     0 < Block.gasLimit blk ->
     exists r, Fee.gasUsedRatio f = Fin r /\
               (ofZ 0 <= r)%Qc /\ (r <= ofZ 1)%Qc) /\
    (Block.gasLimit blk = 0 ->
     Fee.gasUsedRatio f =
       if Block.gasUsed blk =? 0 then NaN
       else Inf (Block.gasUsed blk <? 0)).
Proof.
  intros blk f Hd. rewrite dataFormatter_closed in Hd.
  destruct (convertible blk); [|discriminate].
  apply Ok_inj in Hd. subst f.
  cbn [Fee.gasUsedRatio]. split.
  - intros Hu Hl. now apply ratio_unit.
  - intros ->. cbn [div]. now rewrite !eqb0_ofZ, ltb0_ofZ.
Qed.

Lemma gasUsedRatio_range_witness :
  (exists r, Fee.gasUsedRatio (formatted (fixture_block 7)) = Fin r /\
             (ofZ 0 <= r)%Qc /\ (r <= ofZ 1)%Qc) /\
  Fee.gasUsedRatio (formatted (Block.mk 7 100 5 0 [])) =
    if 5 =? 0 then NaN else Inf (5 <? 0).
Proof.
  split.
  - apply (gasUsedRatio_range (fixture_block 7)).
    + vm_compute. reflexivity.
    + cbn [fixture_block Block.gasUsed Block.gasLimit]. lia.
    + cbn [fixture_block Block.gasLimit]. lia.
  - apply (gasUsedRatio_range (Block.mk 7 100 5 0 [])).
    + vm_compute. reflexivity.
    + reflexivity.
Defined.

(** X16.  When every type-2 priority fee of a block lies between [lo] and
    [hi], and there is at least one, the three tiers of its summary are
    finite and [lo <= q30 <= q60 <= q90 <= hi]. *)
Theorem tiers_within_fee_range :
  forall (blk : Block.t) (f : Fee.t) (lo hi : Z),
    dataFormatter blk = Ok f ->
    filter (fun tx => Tx.type tx =? 2) (Block.transactions blk) <> [] ->
    (forall tx, In tx (Block.transactions blk) -> Tx.type tx = 2 ->
                lo <= Tx.maxPriorityFeePerGas tx <= hi) ->
    exists a b c,
      Fee.maxPriorityFeePerGas f = [Num (Fin a); Num (Fin b); Num (Fin c)] /\
      (ofZ lo <= a)%Qc /\ (a <= b)%Qc /\ (b <= c)%Qc /\ (c <= ofZ hi)%Qc.
Proof. exact formatted_bounded. Qed.

Lemma tiers_within_fee_range_witness :
  exists a b c,
    Fee.maxPriorityFeePerGas (formatted (fixture_block 7))
      = [Num (Fin a); Num (Fin b); Num (Fin c)] /\
    (ofZ 1000000000 <= a)%Qc /\ (a <= b)%Qc /\ (b <= c)%Qc /\
    (c <= ofZ 2000000000)%Qc.
Proof.
  apply (tiers_within_fee_range (fixture_block 7)).
  - vm_compute. reflexivity.
  - discriminate.
  - intros tx Hin Ht. cbn [fixture_block Block.transactions In] in Hin.
    destruct Hin as [<-|[<-|[<-|[<-|[]]]]];
      cbn [Tx.type Tx.maxPriorityFeePerGas] in *; lia.
Defined.

(** ** More on [gasEstimator]: any provider *)

Section AnyProvider.

Variable p : provider.

Lemma dataFormatter_error (blk : Block.t) (e : error) :
  dataFormatter blk = Err e -> e = NumericFault.
Proof.
  rewrite dataFormatter_closed. destruct (convertible blk); [discriminate|].
  intros H. now inversion H.
Qed.

Lemma fetchBlocks_done (fuel : nat) (i blockNumber : Z) blocks tr :
  blockNumber <= i ->
  fetchBlocks_fuel fuel p i blockNumber blocks tr = (tr, Ok blocks).
Proof.
  intros H. destruct fuel; simpl; destruct (Z.ltb_spec i blockNumber);
    try lia; reflexivity.
Qed.

Lemma fetchBlocks_step (fuel : nat) (i blockNumber : Z) blocks tr :
  i < blockNumber ->
  fetchBlocks_fuel (S fuel) p i blockNumber blocks tr =
    match getBlockWithTransactions p i with
    | None => (tr ++ [CallGetBlockWithTransactions i], Err ProviderError)
    | Some raw =>
        match dataFormatter raw with
        | Ok f =>
            fetchBlocks_fuel fuel p (i + 1) blockNumber (blocks ++ [f])
              (tr ++ [CallGetBlockWithTransactions i])
        | Err e => (tr ++ [CallGetBlockWithTransactions i], Err e)
        end
    end.
Proof.
  intros H. cbn [fetchBlocks_fuel].
  destruct (Z.ltb_spec i blockNumber); [|lia].
  unfold bind, await, lift.
  destruct (getBlockWithTransactions p i) as [raw|]; [|reflexivity].
  destruct (dataFormatter raw); reflexivity.
Qed.

(** The loop on any provider: it fetches an initial segment of the block
    numbers that are left, all of them when it ends well, and it ends
    with a rejection or an overflow otherwise. *)
Lemma fetchBlocks_any (fuel : nat) :
  forall i blockNumber blocks tr,
    (Z.to_nat (blockNumber - i) <= fuel)%nat ->
    exists k,
      (k <= Z.to_nat (blockNumber - i))%nat /\
      fst (fetchBlocks_fuel fuel p i blockNumber blocks tr)
        = tr ++ map CallGetBlockWithTransactions (range i k) /\
      match snd (fetchBlocks_fuel fuel p i blockNumber blocks tr) with
      | Ok out => k = Z.to_nat (blockNumber - i) /\
                  exists fs, out = blocks ++ fs /\ length fs = k
      | Err e => e = ProviderError \/ e = NumericFault
      end.
Proof.
  induction fuel as [|fuel IH]; intros i N blocks tr Hf.
  - exists 0%nat. rewrite fetchBlocks_done by lia.
    cbn [fst snd range map]. rewrite app_nil_r. repeat split; try lia.
    exists []. now rewrite app_nil_r.
  - destruct (Z.lt_ge_cases i N) as [Hlt|Hge].
    + rewrite (fetchBlocks_step fuel i N blocks tr Hlt).
      destruct (getBlockWithTransactions p i) as [raw|].
      * destruct (dataFormatter raw) as [formatted0|e] eqn:Hd.
        -- destruct (IH (i + 1) N (blocks ++ [formatted0])
                       (tr ++ [CallGetBlockWithTransactions i]))
             as (k & Hk & Htr & Hres); [lia|].
           exists (S k). split; [lia|]. split.
           ++ rewrite Htr. cbn [range map]. now rewrite <- app_assoc.
           ++ revert Hres.
              destruct (snd (fetchBlocks_fuel fuel p (i + 1) N _ _)) as [out|e];
                intros Hres; [|exact Hres].
              destruct Hres as (Hk' & fs & -> & Hlen). split; [lia|].
              exists (formatted0 :: fs). rewrite <- app_assoc.
              split; [reflexivity | simpl; lia].
        -- exists 1%nat. cbn [fst snd range map]. split; [lia|].
           split; [reflexivity|]. right. eapply dataFormatter_error, Hd.
      * exists 1%nat. cbn [fst snd range map]. split; [lia|].
        split; [reflexivity|]. now left.
    + exists 0%nat. rewrite fetchBlocks_done by lia.
      cbn [fst snd range map]. rewrite app_nil_r.
      repeat split; try lia. exists []. now rewrite app_nil_r.
Qed.



Lemma printed_app (tr tr' : list event) :
  printed (tr ++ tr') = printed tr || printed tr'.
Proof.
  induction tr as [|ev tr IH]; [reflexivity|].
  destruct ev; simpl; try exact IH. reflexivity.
Qed.

Lemma printed_calls (l : list Z) :
  printed (map CallGetBlockWithTransactions l) = false.
Proof. induction l as [|x l IH]; [reflexivity|]. exact IH. Qed.

(** The run, step by step. *)
Lemma gasEstimator_steps :
  gasEstimator p =
    match getBlockNumber p with
    | None => ([CallGetBlockNumber], Err ProviderError)
    | Some N =>
        match fetchBlocks_fuel 4 p (N - 4) N [] [CallGetBlockNumber] with
        | (tr1, Err e) => (tr1, Err e)
        | (tr1, Ok blocks) =>
            match getBlock_pending p with
            | None => (tr1 ++ [CallGetBlockPending], Err ProviderError)
            | Some pending =>
                match toNumber (Block.baseFeePerGas pending) with
                | Err e => (tr1 ++ [CallGetBlockPending], Err e)
                | Ok base =>
                    ((tr1 ++ [CallGetBlockPending])
                       ++ [ConsoleLog (estimation blocks base)], Ok tt)
                end
            end
        end
    end.
Proof.
  unfold gasEstimator, gasEstimator_fuel, bind, await, lift, emit.
  destruct (getBlockNumber p) as [N|]; [|reflexivity]. cbn [app].
  destruct (fetchBlocks_fuel 4 p (N - 4) N [] [CallGetBlockNumber])
    as [tr1 [blocks|e]]; [|reflexivity].
  destruct (getBlock_pending p) as [pending|]; [|reflexivity].
  destruct (toNumber (Block.baseFeePerGas pending)); reflexivity.
Qed.

(** Every run has one of four shapes. *)
Lemma gasEstimator_shape :
  (getBlockNumber p = None /\
   gasEstimator p = ([CallGetBlockNumber], Err ProviderError)) \/
  exists N k,
    getBlockNumber p = Some N /\ (k <= 4)%nat /\
    let calls :=
      CallGetBlockNumber
        :: map CallGetBlockWithTransactions (range (N - 4) k) in
    ((exists e, (e = ProviderError \/ e = NumericFault) /\
                gasEstimator p = (calls, Err e)) \/
     (k = 4%nat /\
      exists e, (e = ProviderError \/ e = NumericFault) /\
                gasEstimator p = (calls ++ [CallGetBlockPending], Err e)) \/
     (k = 4%nat /\
      exists est,
        gasEstimator p
        = (calls ++ [CallGetBlockPending; ConsoleLog est], Ok tt))).
Proof.
  rewrite gasEstimator_steps.
  destruct (getBlockNumber p) as [N|]; [right | left; split; reflexivity].
  destruct (fetchBlocks_any 4 (N - 4) N [] [CallGetBlockNumber])
    as (k & Hk & Htr & Hres); [lia|].
  exists N, k. split; [reflexivity|]. split; [lia|]. cbv zeta.
  destruct (fetchBlocks_fuel 4 p (N - 4) N [] [CallGetBlockNumber])
    as [tr1 [out|e]]; cbn [fst snd] in Htr, Hres; subst tr1; cbn [app].
  - destruct Hres as (Hk4 & _). right.
    assert (E4 : k = 4%nat) by lia. clear Hk4 Hk. subst k.
    destruct (getBlock_pending p) as [pending|].
    + destruct (toNumber (Block.baseFeePerGas pending)) as [base|e] eqn:Hb.
      * right. split; [reflexivity|]. eexists.
        cbn [app]. rewrite <- app_assoc. reflexivity.
      * left. split; [reflexivity|]. exists e. split; [|reflexivity].
        right. rewrite toNumber_fits_b in Hb.
        destruct (fits _); [discriminate | now inversion Hb].
    + left. split; [reflexivity|]. exists ProviderError.
      split; [now left | reflexivity].
  - left. exists e. split; [exact Hres | reflexivity].
Qed.

End AnyProvider.

(** X17.  An estimate is printed exactly when the run completes: a
    completed run ends with its one [console.log], and a run that fails,
    at whatever step, prints nothing. *)
Theorem prints_iff_completes :
  forall p : provider,
    match snd (gasEstimator p) with
    | Ok _ => exists tr e, fst (gasEstimator p) = tr ++ [ConsoleLog e] /\
                           printed tr = false
    | Err _ => printed (fst (gasEstimator p)) = false
    end.
Proof.
  intros p.
  destruct (gasEstimator_shape p) as [[_ E] | (N & k & _ & _ & H)].
  - rewrite E. reflexivity.
  - cbv zeta in H.
    destruct H as [(e & _ & E) | [(_ & e & _ & E) | (_ & est & E)]];
      rewrite E; cbn [fst snd].
    + cbn [printed]. apply printed_calls.
    + change (CallGetBlockNumber :: ?l) with ([CallGetBlockNumber] ++ l).
      cbn [app printed]. rewrite printed_app, printed_calls. reflexivity.
    + exists (CallGetBlockNumber
                :: map CallGetBlockWithTransactions (range (N - 4) k)
                ++ [CallGetBlockPending]), est.
      split.
      * cbn [app]. now rewrite <- app_assoc.
      * cbn [printed]. rewrite printed_app, printed_calls. reflexivity.
Qed.





(** X20.  The process exits with status 0 exactly when an estimate was
    printed, and then nothing is given to [console.error]; otherwise it
    exits with status 1 after giving [console.error] the rejection of the
    provider or the overflow fault, and no estimate was printed.  The
    events are those of [gasEstimator]. *)
Theorem main_exit_status :
  forall p : provider,
    events (main p) = fst (gasEstimator p) /\
    ((status (main p) = 0 /\ reported (main p) = None /\
      printed (events (main p)) = true) \/
     (status (main p) = 1 /\
      (reported (main p) = Some ProviderError \/
       reported (main p) = Some NumericFault) /\
      printed (events (main p)) = false)).
Proof.
  intros p. unfold main.
  destruct (gasEstimator_shape p) as [[_ E] | (N & k & _ & _ & H)].
  - rewrite E. cbn. split; [reflexivity|]. right. auto.
  - cbv zeta in H.
    destruct H as [(e & He & E) | [(_ & e & He & E) | (_ & est & E)]];
      rewrite E; cbn [events status reported fst]; (split; [reflexivity|]).
    + right. split; [reflexivity|]. split.
      * destruct He as [-> | ->]; auto.
      * cbn [printed]. apply printed_calls.
    + right. split; [reflexivity|]. split.
      * destruct He as [-> | ->]; auto.
      * cbn [app printed]. rewrite printed_app, printed_calls. reflexivity.
    + left. split; [reflexivity|]. split; [reflexivity|].
      cbn [app printed]. rewrite printed_app, printed_calls. reflexivity.
Qed.

(** ** More on [gasEstimator]: failures *)

Section Failures.

Variable p : provider.

Lemma convertible_formatted (b : Block.t) :
  convertible b = true -> dataFormatter b = Ok (formatted b).
Proof.
  intros H. unfold formatted. rewrite dataFormatter_closed, H. reflexivity.
Qed.

Lemma not_convertible (b : Block.t) :
  convertible b = false -> dataFormatter b = Err NumericFault.
Proof. intros H. now rewrite dataFormatter_closed, H. Qed.

(** The loop stops at the first block that is not served or cannot be
    formatted. *)
Lemma fetchBlocks_stop (blk : Z -> Block.t) (good : nat) :
  forall fuel i blockNumber blocks tr err,
    (good < fuel)%nat ->
    i + Z.of_nat good < blockNumber ->
    (forall j, i <= j < i + Z.of_nat good ->
               getBlockWithTransactions p j = Some (blk j) /\
               convertible (blk j) = true) ->
    (getBlockWithTransactions p (i + Z.of_nat good) = None /\
     err = ProviderError) \/
    (exists b, getBlockWithTransactions p (i + Z.of_nat good) = Some b /\
               convertible b = false /\ err = NumericFault) ->
    fetchBlocks_fuel fuel p i blockNumber blocks tr =
      (tr ++ map CallGetBlockWithTransactions (range i (S good)), Err err).
Proof.
  induction good as [|good IH]; intros fuel i N blocks tr err Hf Hi Hs Hbad;
    (destruct fuel as [|fuel]; [lia|]); rewrite fetchBlocks_step by lia.
  - replace (i + Z.of_nat 0) with i in Hbad by lia.
    destruct Hbad as [[-> ->] | (b & -> & Hb & ->)]; [reflexivity|].
    now rewrite (not_convertible b Hb).
  - destruct (Hs i) as [Hg Hc]; [lia|].
    rewrite Hg, (convertible_formatted _ Hc).
    rewrite (IH fuel (i + 1) N _ _ err); try lia.
    + cbn [range map]. now rewrite <- app_assoc.
    + intros j Hj. apply Hs. lia.
    + now replace (i + 1 + Z.of_nat good) with (i + Z.of_nat (S good)) by lia.
Qed.

End Failures.

(** X21.  The run is fail-fast on the blocks: when the blocks before
    block [j] of the window are served and convertible and block [j] is
    rejected by the provider, or holds a value [toNumber] cannot convert,
    the run ends there with that error; block [j] is the last thing asked
    of the provider, and neither a later block nor the pending block is
    requested. *)
Theorem block_failure_stops_run :
  forall (p : provider) (N : Z) (blk : Z -> Block.t) (j : Z) (err : error),
    getBlockNumber p = Some N ->
    N - 4 <= j < N ->
    (forall i, N - 4 <= i < j ->
               getBlockWithTransactions p i = Some (blk i) /\
               convertible (blk i) = true) ->
    (getBlockWithTransactions p j = None /\ err = ProviderError) \/
    (exists b, getBlockWithTransactions p j = Some b /\
               convertible b = false /\ err = NumericFault) ->
    gasEstimator p =
      (CallGetBlockNumber
         :: map CallGetBlockWithTransactions
              (range (N - 4) (S (Z.to_nat (j - (N - 4))))),
       Err err).
Proof.
  intros p N blk j err HN Hj Hs Hbad.
  rewrite gasEstimator_steps, HN.
  assert (Ej : N - 4 + Z.of_nat (Z.to_nat (j - (N - 4))) = j) by lia.
  rewrite (fetchBlocks_stop p blk (Z.to_nat (j - (N - 4))) 4 (N - 4) N [] _ err);
    try lia.
  - reflexivity.
  - intros i Hi. apply Hs. lia.
  - now rewrite Ej.
Qed.

Lemma block_failure_stops_run_witness :
  gasEstimator
    (mkProvider (Some 100)
       (fun i => if i =? 98 then None else Some (fixture_block i))
       (Some fixture_pending))
  = (CallGetBlockNumber
       :: map CallGetBlockWithTransactions
            (range (100 - 4) (S (Z.to_nat (98 - (100 - 4))))),
     Err ProviderError).
Proof.
  apply (block_failure_stops_run _ 100 fixture_block 98).
  - reflexivity.
  - lia.
  - intros i Hi. cbn [getBlockWithTransactions].
    destruct (Z.eqb_spec i 98); [lia|]. split; reflexivity.
  - left. split; reflexivity.
Defined.

(** X22.  A rejected [getBlockNumber] ends the run before any block is
    asked for.  When the four blocks are served and convertible, a
    rejected pending block, or a pending base fee [toNumber] cannot
    convert, ends the run after the request for the pending block, with
    that error. *)
Theorem number_or_pending_failure :
  (forall p : provider,
      getBlockNumber p = None ->
      gasEstimator p = ([CallGetBlockNumber], Err ProviderError)) /\
  (forall (p : provider) (N : Z) (blk : Z -> Block.t) (err : error),
      getBlockNumber p = Some N ->
      (forall j, N - 4 <= j < N ->
                 getBlockWithTransactions p j = Some (blk j) /\
                 convertible (blk j) = true) ->
      (getBlock_pending p = None /\ err = ProviderError) \/
      (exists pending, getBlock_pending p = Some pending /\
                       fits (Block.baseFeePerGas pending) = false /\
                       err = NumericFault) ->
      gasEstimator p =
        ([CallGetBlockNumber;
          CallGetBlockWithTransactions (N - 4);
          CallGetBlockWithTransactions (N - 3);
          CallGetBlockWithTransactions (N - 2);
          CallGetBlockWithTransactions (N - 1);
          CallGetBlockPending],
         Err err)).
Proof.
  split.
  - intros p HN. now rewrite gasEstimator_steps, HN.
  - intros p N blk err HN Hs Hbad.
    rewrite gasEstimator_steps, HN.
    rewrite (fetchBlocks_run p blk (fun j => formatted (blk j)) 4 4 (N - 4) N);
      try lia.
    2:{ intros j Hj. destruct (Hs j Hj) as [Hg Hc].
        split; [exact Hg | now apply convertible_formatted]. }
    cbn [range map app].
    replace (N - 4 + 1) with (N - 3) by lia.
    replace (N - 3 + 1) with (N - 2) by lia.
    replace (N - 2 + 1) with (N - 1) by lia.
    destruct Hbad as [[-> ->] | (pending & -> & Hb & ->)]; [reflexivity|].
    rewrite toNumber_fits_b, Hb. reflexivity.
Qed.

Lemma number_or_pending_failure_witness :
  gasEstimator (mkProvider None (fun i => Some (fixture_block i)) None)
    = ([CallGetBlockNumber], Err ProviderError) /\
  gasEstimator
    (mkProvider (Some 100) (fun i => Some (fixture_block i))
       (Some (Block.mk 100 (2 ^ 60) 0 30000000 [])))
    = ([CallGetBlockNumber;
        CallGetBlockWithTransactions (100 - 4);
        CallGetBlockWithTransactions (100 - 3);
        CallGetBlockWithTransactions (100 - 2);
        CallGetBlockWithTransactions (100 - 1);
        CallGetBlockPending],
       Err NumericFault).
Proof.
  split.
  - apply (proj1 number_or_pending_failure). reflexivity.
  - apply (proj2 number_or_pending_failure _ 100 fixture_block).
    + reflexivity.
    + intros j _. split; reflexivity.
    + right. eexists. split; [reflexivity|]. split; reflexivity.
Defined.

(** ** More on [gasEstimator]: completed runs *)

Section Completed.

Variable p : provider.
Variable N : Z.
Variable blk : Z -> Block.t.

Hypothesis number_served : getBlockNumber p = Some N.
Hypothesis blocks_served :
  forall j, N - 4 <= j < N -> getBlockWithTransactions p j = Some (blk j).


End Completed.

Section Columns.







End Columns.





(** ** What a run depends on *)

Section Dependence.

Variables p p' : provider.

Lemma fetchBlocks_congr (fuel : nat) :
  forall i blockNumber blocks tr,
    (forall j, i <= j < blockNumber ->
               option_map dataFormatter (getBlockWithTransactions p j)
               = option_map dataFormatter (getBlockWithTransactions p' j)) ->
    fetchBlocks_fuel fuel p i blockNumber blocks tr =
    fetchBlocks_fuel fuel p' i blockNumber blocks tr.
Proof.
  induction fuel as [|fuel IH]; intros i N blocks tr H.
  - reflexivity.
  - destruct (Z.lt_ge_cases i N) as [Hlt|Hge].
    + rewrite !fetchBlocks_step by exact Hlt.
      specialize (H i ltac:(lia)) as Hi.
      destruct (getBlockWithTransactions p i) as [b|],
               (getBlockWithTransactions p' i) as [b'|];
        cbn [option_map] in Hi; try discriminate; [|reflexivity].
      injection Hi as ->.
      destruct (dataFormatter b'); [|reflexivity].
      apply IH. intros j Hj. apply H. lia.
    + now rewrite !fetchBlocks_done by exact Hge.
Qed.

End Dependence.

(** X25.  A run depends on the provider only through the current block
    number, the summaries of the four blocks of the window and the base
    fee of the pending block: two providers that agree on these give the
    same events and the same outcome, whatever they answer for other
    block numbers (block [N] included) and whatever else the blocks
    hold. *)
Theorem run_depends_on_window_only :
  forall p p' : provider,
    getBlockNumber p = getBlockNumber p' ->
    (forall N j, getBlockNumber p = Some N -> N - 4 <= j < N ->
                 option_map dataFormatter (getBlockWithTransactions p j)
                 = option_map dataFormatter (getBlockWithTransactions p' j)) ->
    option_map Block.baseFeePerGas (getBlock_pending p)
      = option_map Block.baseFeePerGas (getBlock_pending p') ->
    gasEstimator p = gasEstimator p'.
Proof.
  intros p p' HN Hw Hp. rewrite !gasEstimator_steps, <- HN.
  destruct (getBlockNumber p) as [N|] eqn:EN; [|reflexivity].
  rewrite (fetchBlocks_congr p p' 4 (N - 4) N [] [CallGetBlockNumber])
    by (intros j Hj; now apply (Hw N)).
  destruct (fetchBlocks_fuel 4 p' (N - 4) N [] [CallGetBlockNumber])
    as [tr1 [blocks|e]]; [|reflexivity].
  destruct (getBlock_pending p) as [b|], (getBlock_pending p') as [b'|];
    cbn [option_map] in Hp; try discriminate; [|reflexivity].
  injection Hp as ->. reflexivity.
Qed.

Lemma run_depends_on_window_only_witness :
  gasEstimator fixture_provider =
  gasEstimator
    (mkProvider (Some 100)
       (fun i =>
          if (96 <=? i) && (i <? 100) then
            Some (Block.mk i 13000000000 12000000 30000000
                    [Tx.mk 1 99; Tx.mk 2 1000000000; Tx.mk 2 2000000000;
                     Tx.mk 2 1500000000])
          else None)
       (Some (Block.mk 0 13969109554 7 8 [Tx.mk 2 1]))).
Proof.
  apply run_depends_on_window_only.
  - reflexivity.
  - intros N j HN Hj. injection HN as <-.
    assert (E : j = 96 \/ j = 97 \/ j = 98 \/ j = 99) by lia.
    destruct E as [-> | [-> | [-> | ->]]]; vm_compute; reflexivity.
  - reflexivity.
Defined.

(** ** Change of unit *)

Section Affine.

Variables k c : Qc.
Hypothesis k_nonneg : (ofZ 0 <= k)%Qc.

Let f (x : Qc) : Qc := (k * x + c)%Qc.







End Affine.

Section Shift.



End Shift.




